(** * Verification of the account and catalog core of ecommerce-store

    Shallow embedding of [src/products/models.py] and
    [src/accounts/views.py].  Database tables are lists of rows; a write
    statement either commits a state that satisfies the table's unique
    constraints or raises [IntegrityError] and leaves the table as it was.
    There is no [ATOMIC_REQUESTS] in [src/ecommerce/settings.py], so the
    statements of one [save] commit one by one (autocommit). *)

From Stdlib Require Import String Ascii Bool Arith ZArith Lia List.
Import ListNotations.
Open Scope bool_scope.

(* ------------------------------------------------------------------ *)
(** ** ProductImage  (src/products/models.py, lines 161-187) *)

Module ProductImages.

(** One row of the [ProductImage] table: primary key, the [product]
    foreign key and the [is_primary] flag.  The other columns (image,
    alt_text, order, created_at) take no part in any constraint. *)
Record ProductImage := mkImage {
  pi_id : nat;
  pi_product : nat;
  pi_is_primary : bool
}.

Definition table := list ProductImage.

(** Two distinct rows clash when they share the primary key or the pair
    [unique_together = ('product', 'is_primary')]. *)
Definition clash (r r' : ProductImage) : bool :=
  (pi_id r =? pi_id r')
  || ((pi_product r =? pi_product r') && Bool.eqb (pi_is_primary r) (pi_is_primary r')).

(** The table satisfies its primary key and [unique_together]. *)
Fixpoint constraints_ok (s : table) : bool :=
  match s with
  | [] => true
  | r :: t => negb (existsb (clash r) t) && constraints_ok t
  end.

(** A write statement commits only a state satisfying the constraints. *)
Definition commit (s' : table) : option table :=
  if constraints_ok s' then Some s' else None.

(** [ProductImage.objects.filter(product=p, is_primary=True)
      .update(is_primary=False)]: one UPDATE statement. *)
Definition demote_primaries (p : nat) (s : table) : table :=
  map (fun r => if (pi_product r =? p) && pi_is_primary r
                then mkImage (pi_id r) (pi_product r) false else r) s.

(** [Model.save] ([super().save()]): UPDATE the row with the same primary
    key when there is one, INSERT otherwise. *)
Definition model_save (img : ProductImage) (s : table) : table :=
  if existsb (fun r => pi_id r =? pi_id img) s
  then map (fun r => if pi_id r =? pi_id img then img else r) s
  else s ++ [img].

(** Outcome of a call: it returns normally, or [IntegrityError]
    propagates out of it; either way with the table as left behind. *)
Inductive outcome :=
| Returned (s : table)
| Raised (s : table).

Definition final (o : outcome) : table :=
  match o with Returned s => s | Raised s => s end.

(** [ProductImage.save]:
<<
    if self.is_primary:
        ProductImage.objects.filter(product=self.product, is_primary=True).update(is_primary=False)
    super().save(...)
>> *)
Definition save (img : ProductImage) (s : table) : outcome :=
  match (if pi_is_primary img
         then commit (demote_primaries (pi_product img) s)
         else Some s) with
  | None => Raised s
  | Some s1 =>
      match commit (model_save img s1) with
      | None => Raised s1
      | Some s2 => Returned s2
      end
  end.

(** [instance.delete()]. *)
Definition delete (id : nat) (s : table) : table :=
  filter (fun r => negb (pi_id r =? id)) s.

(** The writes a client can issue on the table. *)
Inductive op :=
| Save (img : ProductImage)
| Delete (id : nat).

Definition step (s : table) (o : op) : table :=
  match o with
  | Save img => final (save img s)
  | Delete id => delete id s
  end.

(** Table after a sequence of writes, starting from the empty table. *)
Definition run (ops : list op) : table := fold_left step ops [].

(** Rows of product [p] flagged primary / of product [p]. *)
Definition primaries (p : nat) (s : table) : table :=
  filter (fun r => (pi_product r =? p) && pi_is_primary r) s.

Definition images_of (p : nat) (s : table) : table :=
  filter (fun r => pi_product r =? p) s.

(** Rows of product [p] whose flag is [b]. *)
Definition with_flag (p : nat) (b : bool) (s : table) : table :=
  filter (fun r => (pi_product r =? p) && Bool.eqb (pi_is_primary r) b) s.

End ProductImages.

(* ------------------------------------------------------------------ *)
(** ** Python [decimal] arithmetic under the default context

    The [price] and [discount_price] columns are [DecimalField]s
    ([max_digits=10], [decimal_places=2]) and read back as [Decimal]
    values with exponent [-2].  The default context has [prec = 28] and
    [rounding = ROUND_HALF_EVEN], and traps [DivisionByZero] and
    [InvalidOperation].  A [Decimal] is a coefficient and an exponent;
    exact results are not reduced to Python's ideal exponent, which
    changes the representation but not the value. *)

Module Decimal.
Local Open Scope Z_scope.

Record Dec := mkDec { coef : Z; exp : Z }.

Definition prec : Z := 28.

(** Exceptions raised by the traps of the default context. *)
Inductive PyExc := DivisionByZero | InvalidOperation.

Inductive result (A : Type) := Ok (a : A) | Exc (e : PyExc).
Arguments Ok {A} a.
Arguments Exc {A} e.

(** [n / d] rounded to an integer, ties to even ([ROUND_HALF_EVEN]). *)
Definition round_half_even (n d : Z) : Z :=
  let q := n / d in
  let r := n mod d in
  if 2 * r <? d then q
  else if d <? 2 * r then q + 1
  else if Z.even q then q else q + 1.

(** Number of decimal digits of [n] ([len(str(abs(n)))]). *)
Fixpoint digits_fuel (fuel : nat) (n : Z) : Z :=
  match fuel with
  | O => 1
  | S f => if n <? 10 then 1 else 1 + digits_fuel f (n / 10)
  end.

Definition digits (n : Z) : Z :=
  digits_fuel (S (Z.to_nat (Z.log2 (Z.abs n)))) (Z.abs n).

(** Round a coefficient to [prec] digits, adjusting the exponent. *)
Definition finalize (c e : Z) : Dec :=
  let d := digits c in
  if d <=? prec then mkDec c e
  else mkDec (Z.sgn c * round_half_even (Z.abs c) (10 ^ (d - prec))) (e + (d - prec)).

(** [a - b]: align the exponents, subtract, round. *)
Definition sub (a b : Dec) : Dec :=
  let m := Z.min (exp a) (exp b) in
  finalize (coef a * 10 ^ (exp a - m) - coef b * 10 ^ (exp b - m)) m.

(** [a * b]. *)
Definition mul (a b : Dec) : Dec :=
  finalize (coef a * coef b) (exp a + exp b).

(** [a < b] on values. *)
Definition lt (a b : Dec) : bool :=
  let m := Z.min (exp a) (exp b) in
  coef a * 10 ^ (exp a - m) <? coef b * 10 ^ (exp b - m).

(** Shift used by the division: the quotient [|ca| * 10^k / |cb|] lies in
    [[10^(prec-1), 10^prec)]. *)
Definition div_shift (ca cb : Z) : Z :=
  let k0 := prec - 1 + digits cb - digits ca in
  let big := if 0 <=? k0 then ca * 10 ^ k0 >=? 10 ^ (prec - 1) * cb
             else ca >=? 10 ^ (prec - 1) * cb * 10 ^ (- k0) in
  if big then k0 else k0 + 1.

(** [a / b], correctly rounded to [prec] digits. *)
Definition div (a b : Dec) : result Dec :=
  if coef b =? 0 then
    if coef a =? 0 then Exc InvalidOperation else Exc DivisionByZero
  else if coef a =? 0 then Ok (mkDec 0 (exp a - exp b))
  else
    let ca := Z.abs (coef a) in
    let cb := Z.abs (coef b) in
    let k := div_shift ca cb in
    let q := if 0 <=? k then round_half_even (ca * 10 ^ k) cb
             else round_half_even ca (cb * 10 ^ (- k)) in
    Ok (finalize (Z.sgn (coef a) * Z.sgn (coef b) * q) (exp a - exp b - k)).

(** [a.quantize(Decimal(10) ** e)], as used by [round(a, -e)]. *)
Definition quantize (a : Dec) (e : Z) : result Dec :=
  let c := if e <=? exp a then coef a * 10 ^ (exp a - e)
           else Z.sgn (coef a) * round_half_even (Z.abs (coef a)) (10 ^ (e - exp a)) in
  if prec <? digits c then Exc InvalidOperation else Ok (mkDec c e).

(** Python's [round(a, n)] on a [Decimal]. *)
Definition round (a : Dec) (n : Z) : result Dec := quantize a (- n).

(** [Decimal(n)] for a Python [int]. *)
Definition of_int (n : Z) : Dec := mkDec n 0.

End Decimal.

(* ------------------------------------------------------------------ *)
(** ** Product pricing  (src/products/models.py, lines 88-158) *)

Module Pricing.
Import Decimal.
Local Open Scope Z_scope.

(** The columns of [Product] that the pricing properties read. *)
Record Product := mkProduct {
  price : Dec;
  discount_price : option Dec;
  stock : Z
}.

(** A Python number returned by a property: [int] or [Decimal]. *)
Inductive PyNum := PyInt (n : Z) | PyDecimal (d : Dec).

(** [has_discount]:
    [self.discount_price is not None and self.discount_price < self.price] *)
Definition has_discount (pr : Product) : bool :=
  match discount_price pr with
  | None => false
  | Some d => lt d (price pr)
  end.

(** [discount_percentage]:
<<
    if self.has_discount:
        discount = (self.price - self.discount_price) / self.price * 100
        return round(discount, 2)
    return 0
>> *)
Definition discount_percentage (pr : Product) : result PyNum :=
  if has_discount pr then
    match discount_price pr with
    | None => Ok (PyInt 0)
    | Some d =>
        match div (sub (price pr) d) (price pr) with
        | Exc e => Exc e
        | Ok q =>
            match round (mul q (of_int 100)) 2 with
            | Exc e => Exc e
            | Ok r => Ok (PyDecimal r)
            end
        end
    end
  else Ok (PyInt 0).

(** [is_in_stock]: [self.stock > 0]. *)
Definition is_in_stock (pr : Product) : bool := 0 <? stock pr.

(** A [DecimalField(max_digits=10, decimal_places=2)] value, in cents. *)
Definition decimal_field (cents : Z) : Dec := mkDec cents (-2).

(** The field domain: [max_digits=10] and [MinValueValidator(0)]. *)
Definition field_ok (cents : Z) : Prop := 0 <= cents < 10 ^ 10.

(** A product read from the database, prices given in cents. *)
Definition product_of (p : Z) (d : option Z) : Product :=
  mkProduct (decimal_field p) (option_map decimal_field d) 0.

(** The spec's formula, read with exact rationals:
    [round(100*(price-discount_price)/price, 2)] in hundredths, with
    Python's ties-to-even [round]; [0] without an effective discount. *)
Definition spec_discount_percentage (p : Z) (d : option Z) : Z :=
  match d with
  | Some dc => if dc <? p then round_half_even (10000 * (p - dc)) p else 0
  | None => 0
  end.

End Pricing.

(* ------------------------------------------------------------------ *)
(** ** Accounts  (src/accounts/views.py)

    The views are modelled over the state they read and write: the user
    table, the [authtoken_token] table and the profile table.  A request
    reaches a view with its principal already resolved by the
    authentication classes ([TokenAuthentication], [SessionAuthentication]). *)

Module Accounts.

(** A stored password.  The salted hash is modelled as collision free:
    the digest determines the plaintext it was made from, so [check_password]
    accepts exactly that plaintext. *)
Inductive PasswordHash := Hashed (salt : nat) (digest : string).

(** [make_password(raw)] with the salt drawn for this call. *)
Definition make_password (salt : nat) (raw : string) : PasswordHash := Hashed salt raw.

(** [check_password(raw, encoded)]. *)
Definition check_password (raw : string) (h : PasswordHash) : bool :=
  match h with Hashed _ d => String.eqb d raw end.

Record User := mkUser {
  user_id : nat;
  username : string;
  password : PasswordHash;
  is_active : bool;
  is_staff : bool
}.

(** [rest_framework.authtoken.models.Token]: [key] is the primary key and
    [user] a [OneToOneField]. *)
Record Token := mkToken { key : string; token_user : nat }.

Record Profile := mkProfile { profile_id : nat; profile_user : nat }.

Record State := mkState {
  users : list User;
  tokens : list Token;
  profiles : list Profile
}.

(** [request.user]: an authenticated [User] or [AnonymousUser]. *)
Inductive Caller := Anonymous | AuthUser (u : User).

Inductive Body :=
| BMessage (m : string)
| BError (m : string)
| BFieldErrors (errs : list (string * list string))
| BDetail (m : string)
| BUser (u : User)
| BUserToken (u : User) (token_key : string) (m : string)
| BUsers (count : nat) (page : list User)
| BProfiles (count : nat) (page : list Profile).

Record Response := mkResponse { status : nat; body : Body }.

(** A view call returns a response with the state it leaves, or fails
    with a server error (an uncaught [IntegrityError]). *)
Inductive Outcome :=
| Done (st : State) (r : Response)
| ServerError (st : State).

(** Outcome of [serializer.is_valid()]: [validated_data] or [errors]. *)
Inductive Validated (A : Type) :=
| Valid (a : A)
| Invalid (errs : list (string * list string)).
Arguments Valid {A} a.
Arguments Invalid {A} errs.

(** *** Token bookkeeping *)

Definition token_of (u : nat) (ts : list Token) : option Token :=
  find (fun t => token_user t =? u) ts.

(** [Token.objects.get_or_create(user=user)]: return the user's token when
    there is one; otherwise INSERT a token whose key is [fresh]
    ([Token.generate_key()]), which fails on a duplicate primary key. *)
Definition get_or_create_token (u : nat) (fresh : string) (ts : list Token)
  : option (list Token * Token) :=
  match token_of u ts with
  | Some t => Some (ts, t)
  | None =>
      if existsb (fun t => String.eqb (key t) fresh) ts then None
      else Some (ts ++ [mkToken fresh u], mkToken fresh u)
  end.

(** [token.delete()]. *)
Definition delete_token (t : Token) (ts : list Token) : list Token :=
  filter (fun t' => negb (String.eqb (key t') (key t))) ts.

(** *** Serializers of [accounts/serializers.py] (not under src/) *)

(** [AUTH_PASSWORD_VALIDATORS] (src/ecommerce/settings.py, lines 120-136),
    as [django.contrib.auth.password_validation.validate_password] runs
    them: every validator in order, the messages of those that reject the
    password collected in a list ([[]] when it passes). *)
Definition is_digit (c : ascii) : bool :=
  (48 <=? nat_of_ascii c) && (nat_of_ascii c <=? 57).

(** [MinimumLengthValidator] with [min_length = 8]. *)
Definition MinimumLengthValidator (pw : string) : list string :=
  if String.length pw <? 8
  then ["This password is too short. It must contain at least 8 characters."%string]
  else [].

(** [str.lower] and [str.strip] on ASCII; [str.isspace] holds for
    [\t\n\v\f\r], [\x1c-\x1f] and space. *)
Definition ascii_lower (c : ascii) : ascii :=
  if (65 <=? nat_of_ascii c) && (nat_of_ascii c <=? 90) then ascii_of_nat (nat_of_ascii c + 32)
  else c.

Definition py_isspace (c : ascii) : bool :=
  ((9 <=? nat_of_ascii c) && (nat_of_ascii c <=? 13))
  || ((28 <=? nat_of_ascii c) && (nat_of_ascii c <=? 32)).

Fixpoint lstrip (l : list ascii) : list ascii :=
  match l with
  | c :: t => if py_isspace c then lstrip t else l
  | [] => []
  end.

Definition py_lower_strip (pw : string) : string :=
  string_of_list_ascii
    (rev (lstrip (rev (lstrip (map ascii_lower (list_ascii_of_string pw)))))).

(** [CommonPasswordValidator]: [password.lower().strip() in self.passwords];
    [common] is the list read from Django's [common-passwords.txt.gz]. *)
Definition CommonPasswordValidator (common : list string) (pw : string) : list string :=
  if existsb (String.eqb (py_lower_strip pw)) common
  then ["This password is too common."%string] else [].

(** [NumericPasswordValidator]: [password.isdigit()], false on the empty
    string. *)
Definition NumericPasswordValidator (pw : string) : list string :=
  match pw with
  | EmptyString => []
  | _ => if forallb is_digit (list_ascii_of_string pw)
         then ["This password is entirely numeric."%string] else []
  end.

(** [validate_password(password, user)] with the four configured
    validators; [UserAttributeSimilarityValidator] (a [SequenceMatcher]
    ratio against the user's attributes, skipped without a user) is the
    parameter [similar]. *)
Definition validate_password (common : list string) (similar : User -> string -> list string)
    (u : User) (pw : string) : list string :=
  similar u pw ++ MinimumLengthValidator pw ++ CommonPasswordValidator common pw
  ++ NumericPasswordValidator pw.

(** The validation used in the concrete runs: a few entries of Django's
    common-password list, and a similarity check that rejects nothing (the
    users of these runs have a username only, and it is far from every
    password tried). *)
Definition common_passwords_sample : list string :=
  ["password"%string; "123456"%string; "12345678"%string; "qwerty"%string; "1234"%string].

Definition example_validate : User -> string -> list string :=
  validate_password common_passwords_sample (fun _ _ => []).

(** Modelled from the spec: [UserLoginSerializer] resolves the login
    identifier to an active user whose stored hash accepts the password,
    and otherwise reports one generic error. *)
Definition UserLoginSerializer (us : list User) (name pw : string) : Validated User :=
  match find (fun u => String.eqb (username u) name) us with
  | Some u => if is_active u && check_password pw (password u) then Valid u
              else Invalid [("non_field_errors"%string, ["Invalid credentials"%string])]
  | None => Invalid [("non_field_errors"%string, ["Invalid credentials"%string])]
  end.

(** Modelled from the spec: [ChangePasswordSerializer] takes
    [old_password] and [new_password] and validates the new one with the
    registration strength checks, reporting their messages under
    [new_password].  The checks are a parameter: [validate u pw] lists the
    messages of the validators rejecting [pw] for the user [u], as
    [validate_password] does. *)
Definition ChangePasswordSerializer (validate : User -> string -> list string) (u : User)
    (old_pw new_pw : string) : Validated (string * string) :=
  match validate u new_pw with
  | [] => Valid (old_pw, new_pw)
  | errs => Invalid [("new_password"%string, errs)]
  end.

(** *** Registration and login *)

(** [UserRegistrationViewSet.create] and [register_view], given the
    outcome of [UserRegistrationSerializer] ([serializer.save()] returns
    the created user [u], already in [st]). *)
Definition UserRegistration_create (ser : Validated User) (fresh : string) (st : State)
  : Outcome :=
  match ser with
  | Valid u =>
      match get_or_create_token (user_id u) fresh (tokens st) with
      | Some (ts, t) =>
          Done (mkState (users st) ts (profiles st))
               (mkResponse 201 (BUserToken u (key t) "User registered successfully"%string))
      | None => ServerError st
      end
  | Invalid errs => Done st (mkResponse 400 (BFieldErrors errs))
  end.

(** [UserLoginViewSet.create] and [login_view]. *)
Definition UserLogin_create (name pw : string) (fresh : string) (st : State) : Outcome :=
  match UserLoginSerializer (users st) name pw with
  | Valid u =>
      match get_or_create_token (user_id u) fresh (tokens st) with
      | Some (ts, t) =>
          Done (mkState (users st) ts (profiles st))
               (mkResponse 200 (BUserToken u (key t) "Login successful"%string))
      | None => ServerError st
      end
  | Invalid errs => Done st (mkResponse 401 (BFieldErrors errs))
  end.

(** *** Permissions  (rest_framework.permissions) *)

Inductive Permission := AllowAny | IsAuthenticated | IsAdminUser.

(** [has_permission]: [IsAdminUser] is [request.user and request.user.is_staff]. *)
Definition has_permission (p : Permission) (c : Caller) : bool :=
  match p, c with
  | AllowAny, _ => true
  | IsAuthenticated, AuthUser _ => true
  | IsAdminUser, AuthUser u => is_staff u
  | _, Anonymous => false
  end.

(** [APIView.permission_denied]: [NotAuthenticated] (401, as
    [TokenAuthentication] provides a [WWW-Authenticate] header) for an
    unauthenticated request, [PermissionDenied] (403) otherwise. *)
Definition permission_denied (c : Caller) : Response :=
  match c with
  | Anonymous => mkResponse 401 (BDetail "Authentication credentials were not provided."%string)
  | AuthUser _ => mkResponse 403 (BDetail "You do not have permission to perform this action."%string)
  end.

(** [UserViewSet.get_permissions]. *)
Definition UserViewSet_permission (action : string) : Permission :=
  if existsb (String.eqb action) ["create"%string; "list"%string] then IsAdminUser
  else if existsb (String.eqb action) ["retrieve"%string; "update"%string; "partial_update"%string] then IsAuthenticated
  else if String.eqb action "destroy"%string then IsAdminUser
  else IsAuthenticated.

(** [UserProfileViewSet.get_permissions]. *)
Definition UserProfileViewSet_permission (action : string) : Permission :=
  if existsb (String.eqb action) ["list"%string; "destroy"%string] then IsAdminUser
  else if existsb (String.eqb action) ["retrieve"%string; "update"%string; "partial_update"%string; "create"%string] then IsAuthenticated
  else IsAuthenticated.

(** [UserViewSet.get_queryset]. *)
Definition UserViewSet_queryset (c : Caller) (us : list User) : list User :=
  match c with
  | AuthUser u => if is_staff u then us else filter (fun v => user_id v =? user_id u) us
  | Anonymous => filter (fun _ => false) us
  end.

(** [UserProfileViewSet.get_queryset]. *)
Definition UserProfileViewSet_queryset (c : Caller) (ps : list Profile) : list Profile :=
  match c with
  | AuthUser u => if is_staff u then ps else filter (fun p => profile_user p =? user_id u) ps
  | Anonymous => filter (fun _ => false) ps
  end.

(** [PageNumberPagination] with [PAGE_SIZE = 20]: page [n] of a result
    with [count] rows, or [NotFound] (404) past the last page. *)
Definition PAGE_SIZE : nat := 20.

Definition paginate {A} (page : nat) (qs : list A) : option (nat * list A) :=
  let count := length qs in
  let num_pages := Nat.max 1 ((count + PAGE_SIZE - 1) / PAGE_SIZE) in
  if (1 <=? page) && (page <=? num_pages)
  then Some (count, firstn PAGE_SIZE (skipn ((page - 1) * PAGE_SIZE) qs))
  else None.

Definition not_found : Response := mkResponse 404 (BDetail "Not found."%string).

(** [UserViewSet] [list] ([ListModelMixin.list] after [check_permissions]). *)
Definition UserViewSet_list (c : Caller) (page : nat) (st : State) : Response :=
  if has_permission (UserViewSet_permission "list"%string) c then
    match paginate page (UserViewSet_queryset c (users st)) with
    | Some (n, l) => mkResponse 200 (BUsers n l)
    | None => not_found
    end
  else permission_denied c.

(** [UserViewSet] [retrieve]: [get_object] looks the key up in
    [get_queryset()]. *)
Definition UserViewSet_retrieve (c : Caller) (pk : nat) (st : State) : Response :=
  if has_permission (UserViewSet_permission "retrieve"%string) c then
    match find (fun v => user_id v =? pk) (UserViewSet_queryset c (users st)) with
    | Some v => mkResponse 200 (BUser v)
    | None => not_found
    end
  else permission_denied c.

(** [UserProfileViewSet] [list]. *)
Definition UserProfileViewSet_list (c : Caller) (page : nat) (st : State) : Response :=
  if has_permission (UserProfileViewSet_permission "list"%string) c then
    match paginate page (UserProfileViewSet_queryset c (profiles st)) with
    | Some (n, l) => mkResponse 200 (BProfiles n l)
    | None => not_found
    end
  else permission_denied c.

(** *** Password change and logout *)

Definition set_user (u : User) (us : list User) : list User :=
  map (fun v => if user_id v =? user_id u then u else v) us.

(** [UserViewSet.change_password] for an authenticated [request.user = u];
    [salt] is the salt [set_password] draws.
<<
    serializer = ChangePasswordSerializer(data=request.data)
    if serializer.is_valid():
        user = request.user
        if user.check_password(serializer.validated_data['old_password']):
            user.set_password(serializer.validated_data['new_password'])
            user.save()
            return Response({'message': ...}, status=HTTP_200_OK)
        return Response({'old_password': ['Wrong password.']}, status=HTTP_400_BAD_REQUEST)
    return Response(serializer.errors, status=HTTP_400_BAD_REQUEST)
>> *)
Definition change_password (validate : User -> string -> list string) (u : User)
    (old_pw new_pw : string) (salt : nat) (st : State) : User * State * Response :=
  match ChangePasswordSerializer validate u old_pw new_pw with
  | Valid (o, n) =>
      if check_password o (password u) then
        let u' := mkUser (user_id u) (username u) (make_password salt n)
                         (is_active u) (is_staff u) in
        (u', mkState (set_user u' (users st)) (tokens st) (profiles st),
         mkResponse 200 (BMessage "Password changed successfully"%string))
      else (u, st, mkResponse 400 (BFieldErrors [("old_password"%string, ["Wrong password."%string])]))
  | Invalid errs => (u, st, mkResponse 400 (BFieldErrors errs))
  end.

(** The permission check of [change_password] ([IsAuthenticated]) and the
    view; an anonymous request is refused before the body runs. *)
Definition UserViewSet_change_password (validate : User -> string -> list string) (c : Caller)
    (old_pw new_pw : string) (salt : nat) (st : State) : State * Response :=
  match c with
  | AuthUser u =>
      let '(_, st', r) := change_password validate u old_pw new_pw salt st in (st', r)
  | Anonymous => (st, permission_denied c)
  end.

(** [request.user.auth_token.delete()] inside [try]: the reverse
    one-to-one accessor raises [RelatedObjectDoesNotExist] when the user
    has no token, and [AnonymousUser] has no [auth_token] at all
    ([AttributeError]); [None] stands for the exception. *)
Definition delete_auth_token (c : Caller) (ts : list Token) : option (list Token) :=
  match c with
  | AuthUser u =>
      match token_of (user_id u) ts with
      | Some t => Some (delete_token t ts)
      | None => None
      end
  | Anonymous => None
  end.

(** The token of the caller, if any. *)
Definition caller_token (c : Caller) (ts : list Token) : option Token :=
  match c with
  | AuthUser u => token_of (user_id u) ts
  | Anonymous => None
  end.

(** [UserViewSet.logout] ([IsAuthenticated]). *)
Definition UserViewSet_logout (c : Caller) (st : State) : State * Response :=
  if has_permission IsAuthenticated c then
    match delete_auth_token c (tokens st) with
    | Some ts => (mkState (users st) ts (profiles st),
                  mkResponse 200 (BMessage "Logged out successfully"%string))
    | None => (st, mkResponse 400 (BError "User has no auth_token."%string))
    end
  else (st, permission_denied c).

(** [logout_view] ([AllowAny]). *)
Definition logout_view (c : Caller) (st : State) : State * Response :=
  match delete_auth_token c (tokens st) with
  | Some ts => (mkState (users st) ts (profiles st),
                mkResponse 200 (BMessage "Logged out successfully"%string))
  | None => (st, mkResponse 400 (BError "Logout failed"%string))
  end.

(** *** Account activation  (UserViewSet.deactivate / activate) *)

(** [GenericAPIView.get_object] on [UserViewSet]: the row with primary
    key [pk] in [get_queryset()], or [Http404]. *)
Definition UserViewSet_get_object (c : Caller) (pk : nat) (st : State) : option User :=
  find (fun v => user_id v =? pk) (UserViewSet_queryset c (users st)).

(** [UserViewSet.deactivate].  The route is built with
    [permission_classes=[IsAdminUser]], but [get_permissions] is overridden
    and never reads [self.permission_classes]: the permission is the one
    [get_permissions] gives the action name.
<<
    user = self.get_object()
    user.is_active = False
    user.save()
    return Response({'message': f'User {user.username} has been deactivated'}, status=HTTP_200_OK)
>> *)
Definition UserViewSet_deactivate (c : Caller) (pk : nat) (st : State) : State * Response :=
  if has_permission (UserViewSet_permission "deactivate"%string) c then
    match UserViewSet_get_object c pk st with
    | Some v =>
        let v' := mkUser (user_id v) (username v) (password v) false (is_staff v) in
        (mkState (set_user v' (users st)) (tokens st) (profiles st),
         mkResponse 200 (BMessage (String.append "User "%string
                          (String.append (username v) " has been deactivated"%string))))
    | None => (st, not_found)
    end
  else (st, permission_denied c).

(** [UserViewSet.activate]. *)
Definition UserViewSet_activate (c : Caller) (pk : nat) (st : State) : State * Response :=
  if has_permission (UserViewSet_permission "activate"%string) c then
    match UserViewSet_get_object c pk st with
    | Some v =>
        let v' := mkUser (user_id v) (username v) (password v) true (is_staff v) in
        (mkState (set_user v' (users st)) (tokens st) (profiles st),
         mkResponse 200 (BMessage (String.append "User "%string
                          (String.append (username v) " has been activated"%string))))
    | None => (st, not_found)
    end
  else (st, permission_denied c).

(** *** [UserProfileViewSet.my_profile] *)

(** The answer of [my_profile]: the serialized profile (200), another
    response, or an uncaught exception (500). *)
Inductive ProfileResult :=
| ProfileOk (p : Profile)
| ProfileResp (r : Response)
| ProfileServerError.

(**
<<
    try:
        profile = UserProfile.objects.get(user=request.user)
        return Response(UserProfileSerializer(profile).data)
    except UserProfile.DoesNotExist:
        return Response({'error': 'Profile not found'}, status=HTTP_404_NOT_FOUND)
>>
    [get] raises [DoesNotExist] on no row and [MultipleObjectsReturned]
    (not caught) on more than one. *)
Definition UserProfileViewSet_my_profile (c : Caller) (st : State) : ProfileResult :=
  if has_permission (UserProfileViewSet_permission "my_profile"%string) c then
    match c with
    | AuthUser u =>
        match filter (fun p => profile_user p =? user_id u) (profiles st) with
        | [] => ProfileResp (mkResponse 404 (BError "Profile not found"%string))
        | [p] => ProfileOk p
        | _ => ProfileServerError
        end
    | Anonymous => ProfileResp (permission_denied c)  (* refused above *)
    end
  else ProfileResp (permission_denied c).

(** *** The token table *)

(** Constraints of [authtoken_token]: [key] is the primary key and [user]
    a [OneToOneField], so no two rows share a key or a user. *)
Definition token_clash (t t' : Token) : bool :=
  String.eqb (key t) (key t') || (token_user t =? token_user t').

Fixpoint tokens_ok (ts : list Token) : bool :=
  match ts with
  | [] => true
  | t :: r => negb (existsb (token_clash t) r) && tokens_ok r
  end.

(** [TokenAuthentication.authenticate_credentials]: the user a key
    authenticates as. *)
Definition token_owner (k : string) (ts : list Token) : option nat :=
  option_map token_user (find (fun t => String.eqb (key t) k) ts).

(** [TokenAuthentication.authenticate_credentials(key)] of DRF, the first
    of [DEFAULT_AUTHENTICATION_CLASSES] (src/ecommerce/settings.py, lines
    202-205); a failure answers 401 before the permission check and the view:
<<
    try:
        token = model.objects.select_related('user').get(key=key)
    except model.DoesNotExist:
        raise exceptions.AuthenticationFailed(_('Invalid token.'))
    if not token.user.is_active:
        raise exceptions.AuthenticationFailed(_('User inactive or deleted.'))
    return (token.user, token)
>>
    [select_related] on the non-null [user] key is an inner join: a token
    without its user row is not found. *)
Inductive AuthResult :=
| Authenticated (u : User) (t : Token)
| AuthenticationFailed (detail : string).

Definition TokenAuthentication_authenticate (k : string) (st : State) : AuthResult :=
  match find (fun t => String.eqb (key t) k) (tokens st) with
  | None => AuthenticationFailed "Invalid token."%string
  | Some t =>
      match find (fun u => user_id u =? token_user t) (users st) with
      | None => AuthenticationFailed "Invalid token."%string
      | Some u => if is_active u then Authenticated u t
                  else AuthenticationFailed "User inactive or deleted."%string
      end
  end.

(** The account endpoints, as requests on the state. *)
Inductive AccountRequest :=
| RegisterReq (ser : Validated User) (fresh : string)
| LoginReq (name pw fresh : string)
| ChangePasswordReq (c : Caller) (old_pw new_pw : string) (salt : nat)
| LogoutReq (c : Caller)
| LogoutViewReq (c : Caller)
| DeactivateReq (c : Caller) (pk : nat)
| ActivateReq (c : Caller) (pk : nat).

Definition outcome_state (o : Outcome) : State :=
  match o with Done st _ => st | ServerError st => st end.

Definition account_step (validate : User -> string -> list string) (st : State)
    (q : AccountRequest) : State :=
  match q with
  | RegisterReq ser fresh => outcome_state (UserRegistration_create ser fresh st)
  | LoginReq name pw fresh => outcome_state (UserLogin_create name pw fresh st)
  | ChangePasswordReq c o n salt => fst (UserViewSet_change_password validate c o n salt st)
  | LogoutReq c => fst (UserViewSet_logout c st)
  | LogoutViewReq c => fst (logout_view c st)
  | DeactivateReq c pk => fst (UserViewSet_deactivate c pk st)
  | ActivateReq c pk => fst (UserViewSet_activate c pk st)
  end.

Definition account_run (validate : User -> string -> list string) (st : State)
    (qs : list AccountRequest) : State :=
  fold_left (account_step validate) qs st.

(** The user row [w] with [is_active] set to [b] when its key is [pk]. *)
Definition with_active (b : bool) (pk : nat) (w : User) : User :=
  if user_id w =? pk then mkUser (user_id w) (username w) (password w) b (is_staff w) else w.

End Accounts.

(* ------------------------------------------------------------------ *)
(** ** Category  (src/products/models.py, lines 31-59) *)

Module Categories.

(** *** [django.utils.text.slugify] on ASCII text
<<
    value = unicodedata.normalize("NFKD", value).encode("ascii", "ignore").decode("ascii")
    value = re.sub(r"[^\w\s-]", "", value.lower())
    return re.sub(r"[-\s]+", "-", value).strip("-_")
>>
    Characters above 127 are dropped by the ASCII encoding; the NFKD
    decomposition that first maps accented letters to ASCII is not modelled. *)

Definition code (c : ascii) : nat := nat_of_ascii c.

(** [str.lower] on ASCII. *)
Definition lower (c : ascii) : ascii :=
  if (65 <=? code c) && (code c <=? 90) then ascii_of_nat (code c + 32) else c.

(** [\w] on ASCII: letters, digits and underscore. *)
Definition is_word (c : ascii) : bool :=
  ((97 <=? code c) && (code c <=? 122)) || ((65 <=? code c) && (code c <=? 90))
  || ((48 <=? code c) && (code c <=? 57)) || (code c =? 95).

(** [\s] on ASCII: [\t\n\v\f\r], the separators [\x1c-\x1f] and space. *)
Definition is_space (c : ascii) : bool :=
  ((9 <=? code c) && (code c <=? 13)) || ((28 <=? code c) && (code c <=? 32)).

Definition is_dash (c : ascii) : bool := code c =? 45.

(** [re.sub(r"[-\s]+", "-", value)]. *)
Fixpoint collapse (in_run : bool) (l : list ascii) : list ascii :=
  match l with
  | [] => []
  | c :: t =>
      if is_dash c || is_space c
      then if in_run then collapse true t else "-"%char :: collapse true t
      else c :: collapse false t
  end.

Fixpoint drop_while (f : ascii -> bool) (l : list ascii) : list ascii :=
  match l with
  | [] => []
  | c :: t => if f c then drop_while f t else l
  end.

(** [.strip("-_")]. *)
Definition strip_dash_underscore (l : list ascii) : list ascii :=
  let f c := is_dash c || (code c =? 95) in
  rev (drop_while f (rev (drop_while f l))).

Definition slugify (value : string) : string :=
  let l := filter (fun c => code c <? 128) (list_ascii_of_string value) in
  let l := filter (fun c => is_word c || is_space c || is_dash c) (map lower l) in
  string_of_list_ascii (strip_dash_underscore (collapse false l)).

(** *** The table *)

(** A row of [Category]: primary key, [name] ([unique=True]), [slug]
    ([unique=True, blank=True]) and the [parent] self-reference
    ([null=True]).  Description, image and flags take no part. *)
Record Category := mkCategory {
  cat_id : nat;
  name : string;
  slug : string;
  parent : option nat
}.

Definition table := list Category.

Definition clash (r r' : Category) : bool :=
  (cat_id r =? cat_id r') || String.eqb (name r) (name r') || String.eqb (slug r) (slug r').

Fixpoint unique_ok (s : table) : bool :=
  match s with
  | [] => true
  | r :: t => negb (existsb (clash r) t) && unique_ok t
  end.

Definition has_id (s : table) (q : nat) : bool := existsb (fun r => cat_id r =? q) s.

(** The [parent] foreign key refers to an existing row. *)
Definition fk_ok (s : table) (r : Category) : bool :=
  match parent r with None => true | Some q => has_id s q end.

Definition constraints_ok (s : table) : bool := unique_ok s && forallb (fk_ok s) s.

Inductive outcome := Returned (s : table) | Raised (s : table).

Definition model_save (c : Category) (s : table) : table :=
  if has_id s (cat_id c)
  then map (fun r => if cat_id r =? cat_id c then c else r) s
  else s ++ [c].

(** [if not self.slug: self.slug = slugify(self.name)]. *)
Definition with_slug (c : Category) : Category :=
  if String.eqb (slug c) EmptyString then mkCategory (cat_id c) (name c) (slugify (name c)) (parent c)
  else c.

(** [Category.save]: derive the slug, then [super().save()], a single
    statement that commits only a state meeting the constraints. *)
Definition save (c : Category) (s : table) : outcome :=
  let c' := with_slug c in
  let s' := model_save c' s in
  if constraints_ok s' then Returned s' else Raised s.

(** Follow [parent] links from [id] for at most [fuel] steps and report
    whether [id] is reached again. *)
Fixpoint reaches (s : table) (fuel : nat) (id cur : nat) : bool :=
  match fuel with
  | O => false
  | S f =>
      match find (fun r => cat_id r =? cur) s with
      | Some r => match parent r with
                  | Some q => (q =? id) || reaches s f id q
                  | None => false
                  end
      | None => false
      end
  end.

(** The category [id] is its own ancestor in [s]. *)
Definition own_ancestor (s : table) (id : nat) : bool := reaches s (length s) id id.

(** The parent of [c] is [c] itself or a row of [s]. *)
Definition parent_exists (c : Category) (s : table) : bool :=
  match parent c with None => true | Some q => (q =? cat_id c) || has_id s q end.

End Categories.

(* ------------------------------------------------------------------ *)
(** ** Brand  (src/products/models.py, lines 6-28) *)

Module Brands.
Import Categories (slugify).

(** A row of [Brand]: primary key, [name] ([unique=True]) and [slug]
    ([unique=True, blank=True]). *)
Record Brand := mkBrand { brand_id : nat; brand_name : string; brand_slug : string }.

Definition table := list Brand.

Definition clash (r r' : Brand) : bool :=
  (brand_id r =? brand_id r') || String.eqb (brand_name r) (brand_name r')
  || String.eqb (brand_slug r) (brand_slug r').

Fixpoint constraints_ok (s : table) : bool :=
  match s with
  | [] => true
  | r :: t => negb (existsb (clash r) t) && constraints_ok t
  end.

Definition model_save (b : Brand) (s : table) : table :=
  if existsb (fun r => brand_id r =? brand_id b) s
  then map (fun r => if brand_id r =? brand_id b then b else r) s
  else s ++ [b].

Definition with_slug (b : Brand) : Brand :=
  if String.eqb (brand_slug b) EmptyString
  then mkBrand (brand_id b) (brand_name b) (slugify (brand_name b))
  else b.

Inductive outcome := Returned (s : table) | Raised (s : table).

(** [Brand.save]. *)
Definition save (b : Brand) (s : table) : outcome :=
  let s' := model_save (with_slug b) s in
  if constraints_ok s' then Returned s' else Raised s.

End Brands.

(* ------------------------------------------------------------------ *)
(** ** Product slugs  (src/products/models.py, lines 62-140) *)

Module Products.
Import Categories (slugify).

(** The columns of [Product] that [save] and the table's unique
    constraints involve: primary key, [name] (not unique) and [slug]
    ([unique=True, blank=True]). *)
Record Product := mkProduct { product_id : nat; product_name : string; product_slug : string }.

Definition table := list Product.

Definition clash (r r' : Product) : bool :=
  (product_id r =? product_id r') || String.eqb (product_slug r) (product_slug r').

Fixpoint constraints_ok (s : table) : bool :=
  match s with
  | [] => true
  | r :: t => negb (existsb (clash r) t) && constraints_ok t
  end.

Definition model_save (p : Product) (s : table) : table :=
  if existsb (fun r => product_id r =? product_id p) s
  then map (fun r => if product_id r =? product_id p then p else r) s
  else s ++ [p].

Definition with_slug (p : Product) : Product :=
  if String.eqb (product_slug p) EmptyString
  then mkProduct (product_id p) (product_name p) (slugify (product_name p))
  else p.

Inductive outcome := Returned (s : table) | Raised (s : table).

(** [Product.save]. *)
Definition save (p : Product) (s : table) : outcome :=
  let s' := model_save (with_slug p) s in
  if constraints_ok s' then Returned s' else Raised s.

End Products.

(* ------------------------------------------------------------------ *)
(** ** The shape of a slug *)

Module SlugShape.
Import Categories.

(** A character [slugify] can emit: [a-z], [0-9], [_] or [-]. *)
Definition is_slug_char (c : ascii) : bool :=
  ((97 <=? code c) && (code c <=? 122)) || ((48 <=? code c) && (code c <=? 57))
  || (code c =? 95) || is_dash c.

Definition starts_dash (l : list ascii) : bool :=
  match l with [] => false | c :: _ => is_dash c end.

(** No two consecutive dashes. *)
Fixpoint no_double_dash (l : list ascii) : bool :=
  match l with
  | [] => true
  | c :: t => negb (is_dash c && starts_dash t) && no_double_dash t
  end.

(** The characters [.strip("-_")] removes. *)
Definition strip_char (c : ascii) : bool := is_dash c || (code c =? 95).

(** The first character is not one [.strip("-_")] removes. *)
Definition edge_ok (l : list ascii) : bool :=
  match l with [] => true | c :: _ => negb (strip_char c) end.

Definition is_slug (s : string) : bool :=
  let l := list_ascii_of_string s in
  forallb is_slug_char l && no_double_dash l && edge_ok l && edge_ok (rev l).

End SlugShape.

(* ------------------------------------------------------------------ *)
(** ** Lemmas on the ProductImage table *)

Module ProductImagesFacts.
Import ProductImages.

Lemma constraints_ok_cons r t :
  constraints_ok (r :: t) = true <->
  (forall r', In r' t -> clash r r' = false) /\ constraints_ok t = true.
Proof.
  simpl. rewrite andb_true_iff, negb_true_iff. split.
  - intros [Hn Ht]. split; [|exact Ht]. intros r' Hin.
    destruct (clash r r') eqn:E; [|reflexivity].
    exfalso. assert (existsb (clash r) t = true) as Hc
      by (apply existsb_exists; eauto). congruence.
  - intros [Hn Ht]. split; [|exact Ht].
    destruct (existsb (clash r) t) eqn:E; [|reflexivity].
    apply existsb_exists in E as [r' [Hin Hc]]. rewrite (Hn r' Hin) in Hc.
    discriminate.
Qed.

Lemma constraints_ok_filter f s :
  constraints_ok s = true -> constraints_ok (filter f s) = true.
Proof.
  induction s as [|r t IH]; simpl; [reflexivity|].
  intros H. apply constraints_ok_cons in H as [Hn Ht].
  destruct (f r); [|auto].
  apply constraints_ok_cons. split; [|auto].
  intros r' Hin. apply filter_In in Hin as [Hin _]. auto.
Qed.

Lemma commit_ok s s' : commit s = Some s' -> constraints_ok s' = true.
Proof.
  unfold commit. destruct (constraints_ok s) eqn:E; intros H;
    inversion H; subst; auto.
Qed.

Lemma save_ok img s :
  constraints_ok s = true -> constraints_ok (final (save img s)) = true.
Proof.
  intros Hs. unfold save.
  destruct (if pi_is_primary img then _ else _) as [s1|] eqn:E1; simpl; [|exact Hs].
  assert (Hs1 : constraints_ok s1 = true).
  { destruct (pi_is_primary img); [exact (commit_ok _ _ E1)|].
    inversion E1; subst; exact Hs. }
  destruct (commit (model_save img s1)) as [s2|] eqn:E2; simpl; [|exact Hs1].
  exact (commit_ok _ _ E2).
Qed.

Lemma step_ok s o : constraints_ok s = true -> constraints_ok (step s o) = true.
Proof.
  destruct o as [img|id]; simpl.
  - apply save_ok.
  - apply constraints_ok_filter.
Qed.

Lemma run_ok ops : constraints_ok (run ops) = true.
Proof.
  unfold run. assert (H0 : constraints_ok [] = true) by reflexivity.
  revert H0. generalize (@nil ProductImage) as s.
  induction ops as [|o ops IH]; intros s Hs; simpl; [exact Hs|].
  apply IH, step_ok, Hs.
Qed.

Lemma with_flag_le1 p b s :
  constraints_ok s = true -> length (with_flag p b s) <= 1.
Proof.
  induction s as [|r t IH]; simpl; [lia|].
  intros H. apply constraints_ok_cons in H as [Hn Ht].
  destruct ((pi_product r =? p) && Bool.eqb (pi_is_primary r) b) eqn:Er;
    [|apply IH, Ht].
  simpl. enough (with_flag p b t = []) as -> by (simpl; lia).
  apply andb_true_iff in Er as [Ep Eb].
  apply Nat.eqb_eq in Ep. apply Bool.eqb_prop in Eb.
  destruct (with_flag p b t) as [|r' t'] eqn:Ew; [reflexivity|exfalso].
  assert (Hin : In r' (with_flag p b t)) by (rewrite Ew; left; reflexivity).
  unfold with_flag in Hin. apply filter_In in Hin as [Hin Hr'].
  apply andb_true_iff in Hr' as [Ep' Eb'].
  apply Nat.eqb_eq in Ep'. apply Bool.eqb_prop in Eb'.
  specialize (Hn r' Hin). unfold clash in Hn.
  rewrite Ep, Ep', Eb, Eb', Nat.eqb_refl, Bool.eqb_reflx, orb_true_r in Hn.
  discriminate.
Qed.

Lemma primaries_with_flag p s : primaries p s = with_flag p true s.
Proof.
  unfold primaries, with_flag. apply filter_ext. intros r.
  destruct (pi_is_primary r); simpl; rewrite ?andb_true_r, ?andb_false_r; reflexivity.
Qed.

Lemma images_of_split p s :
  length (images_of p s) = length (with_flag p true s) + length (with_flag p false s).
Proof.
  induction s as [|r t IH]; simpl; [reflexivity|].
  unfold images_of, with_flag in *.
  destruct (pi_product r =? p), (pi_is_primary r); simpl; rewrite IH; lia.
Qed.

Lemma demote_no_primary p s r :
  In r (demote_primaries p s) -> pi_product r = p -> pi_is_primary r = false.
Proof.
  unfold demote_primaries. intros Hin Hp. apply in_map_iff in Hin as [r0 [<- Hin]].
  destruct ((pi_product r0 =? p) && pi_is_primary r0) eqn:E; [reflexivity|].
  apply andb_false_iff in E as [E|E]; [|exact E].
  apply Nat.eqb_neq in E. contradiction.
Qed.

Lemma in_model_save img s r :
  In r (model_save img s) -> r = img \/ (In r s /\ pi_id r <> pi_id img).
Proof.
  unfold model_save. destruct (existsb _ s) eqn:Ex.
  - intros Hin. apply in_map_iff in Hin as [r0 [<- Hin]].
    destruct (pi_id r0 =? pi_id img) eqn:E; [left; reflexivity|].
    right. split; [exact Hin|]. apply Nat.eqb_neq, E.
  - intros Hin. apply in_app_or in Hin as [Hin|[<-|[]]]; [|left; reflexivity].
    right. split; [exact Hin|]. intros Heq.
    assert (existsb (fun r => pi_id r =? pi_id img) s = true) as Ht
      by (apply existsb_exists; exists r; split; [exact Hin|apply Nat.eqb_eq, Heq]).
    congruence.
Qed.

Lemma clash_sym a b : clash a b = clash b a.
Proof.
  unfold clash. rewrite Nat.eqb_sym, (Nat.eqb_sym (pi_product a)).
  destruct (pi_is_primary a), (pi_is_primary b); reflexivity.
Qed.

Lemma constraints_ok_pair l a b :
  constraints_ok l = true -> In a l -> In b l -> a <> b -> clash a b = false.
Proof.
  induction l as [|x t IH]; [intros _ []|].
  intros H Ha Hb Hne. apply constraints_ok_cons in H as [Hn Ht].
  destruct Ha as [<-|Ha]; destruct Hb as [<-|Hb].
  - contradiction.
  - apply Hn, Hb.
  - rewrite clash_sym. apply Hn, Ha.
  - apply IH; assumption.
Qed.

Lemma in_model_save_self img s : In img (model_save img s).
Proof.
  unfold model_save. destruct (existsb _ s) eqn:Ex.
  - apply existsb_exists in Ex as [r0 [Hin E]].
    apply in_map_iff. exists r0. rewrite E. split; [reflexivity|exact Hin].
  - apply in_or_app. right. left. reflexivity.
Qed.

Lemma in_model_save_other img s r :
  In r s -> pi_id r <> pi_id img -> In r (model_save img s).
Proof.
  intros Hin Hne. unfold model_save. destruct (existsb _ s).
  - apply in_map_iff. exists r. apply Nat.eqb_neq in Hne. rewrite Hne. auto.
  - apply in_or_app. left. exact Hin.
Qed.

(** C1: at most one primary image per product in every reachable table,
    and a successful save of a primary image leaves it the only primary
    image of its product. *)
Theorem primary_image_exclusive :
  (forall ops p, length (primaries p (run ops)) <= 1) /\
  (forall img s s',
      pi_is_primary img = true -> save img s = Returned s' ->
      forall r, In r s' -> pi_product r = pi_product img ->
                pi_is_primary r = true -> r = img).
Proof.
  split.
  - intros ops p. rewrite primaries_with_flag. apply with_flag_le1, run_ok.
  - intros img s s' Hprim Hsave r Hin Hp Hr. unfold save in Hsave.
    rewrite Hprim in Hsave.
    destruct (commit (demote_primaries (pi_product img) s)) as [s1|] eqn:E1;
      [|discriminate].
    destruct (commit (model_save img s1)) as [s2|] eqn:E2; [|discriminate].
    inversion Hsave; subst s2.
    unfold commit in E1, E2.
    destruct (constraints_ok (demote_primaries _ s)); [|discriminate].
    destruct (constraints_ok (model_save img s1)); [|discriminate].
    inversion E1; inversion E2; subst.
    apply in_model_save in Hin as [->|[Hin _]]; [reflexivity|].
    rewrite (demote_no_primary _ _ _ Hin Hp) in Hr. discriminate.
Qed.

(** C10: [unique_together = ('product', 'is_primary')] allows one row per
    product and flag value, hence at most two images per product; saving
    a non-primary image of a product that already has another
    non-primary image raises [IntegrityError] and changes nothing. *)
Theorem unique_together_two_images :
  (forall ops p b, length (with_flag p b (run ops)) <= 1) /\
  (forall ops p, length (images_of p (run ops)) <= 2) /\
  (forall s img r,
      constraints_ok s = true -> pi_is_primary img = false ->
      In r s -> pi_product r = pi_product img -> pi_is_primary r = false ->
      pi_id r <> pi_id img -> save img s = Raised s).
Proof.
  split; [|split].
  - intros ops p b. apply with_flag_le1, run_ok.
  - intros ops p. rewrite images_of_split.
    pose proof (with_flag_le1 p true _ (run_ok ops)).
    pose proof (with_flag_le1 p false _ (run_ok ops)). lia.
  - intros s img r Hs Hprim Hin Hp Hr Hid. unfold save. rewrite Hprim.
    unfold commit.
    destruct (constraints_ok (model_save img s)) eqn:E; [|reflexivity].
    exfalso.
    assert (Hc : clash r img = false).
    { apply (constraints_ok_pair (model_save img s)); auto.
      - apply in_model_save_other; assumption.
      - apply in_model_save_self.
      - intros ->. contradiction. }
    unfold clash in Hc. rewrite Hp, Hr, Hprim, Nat.eqb_refl in Hc.
    rewrite orb_true_r in Hc. discriminate.
Qed.

End ProductImagesFacts.

(* ------------------------------------------------------------------ *)
(** ** Lemmas on the decimal model *)

Module DecimalFacts.
Import Decimal.
Local Open Scope Z_scope.

Lemma rhe_bounds n d :
  0 < d -> d * (2 * round_half_even n d - 1) <= 2 * n <= d * (2 * round_half_even n d + 1).
Proof.
  intros Hd. unfold round_half_even.
  pose proof (Z.div_mod n d ltac:(lia)) as Hn.
  pose proof (Z.mod_pos_bound n d Hd) as Hr.
  set (q := n / d) in *. set (r := n mod d) in *.
  destruct (2 * r <? d) eqn:E1; [apply Z.ltb_lt in E1; nia|apply Z.ltb_ge in E1].
  destruct (d <? 2 * r) eqn:E2; [apply Z.ltb_lt in E2; nia|apply Z.ltb_ge in E2].
  destruct (Z.even q); nia.
Qed.

Lemma rhe_strict n d :
  0 < d -> 2 * (n mod d) <> d ->
  d * (2 * round_half_even n d - 1) < 2 * n < d * (2 * round_half_even n d + 1).
Proof.
  intros Hd Ht. unfold round_half_even.
  pose proof (Z.div_mod n d ltac:(lia)) as Hn.
  pose proof (Z.mod_pos_bound n d Hd) as Hr.
  set (q := n / d) in *. set (r := n mod d) in *.
  destruct (2 * r <? d) eqn:E1; [apply Z.ltb_lt in E1; nia|apply Z.ltb_ge in E1].
  destruct (d <? 2 * r) eqn:E2; [apply Z.ltb_lt in E2; nia|apply Z.ltb_ge in E2].
  lia.
Qed.

Lemma rhe_unique n d x :
  0 < d -> d * (2 * x - 1) < 2 * n < d * (2 * x + 1) -> round_half_even n d = x.
Proof.
  intros Hd Hx. pose proof (rhe_bounds n d Hd) as Hb.
  set (y := round_half_even n d) in *.
  assert (2 * y - 1 < 2 * x + 1).
  { apply (Z.mul_lt_mono_pos_l d); lia. }
  assert (2 * x - 1 < 2 * y + 1).
  { apply (Z.mul_lt_mono_pos_l d); lia. }
  lia.
Qed.

Lemma rhe_exact k d : 0 < d -> round_half_even (k * d) d = k.
Proof.
  intros Hd. apply rhe_unique; nia.
Qed.

Lemma rhe_tie a d :
  0 < d -> Z.even d = true ->
  round_half_even (a * d + d / 2) d = if Z.even a then a else a + 1.
Proof.
  intros Hd Hev. apply Z.even_spec in Hev as [h ->].
  replace (2 * h / 2) with h by (rewrite Z.mul_comm, Z.div_mul; lia).
  unfold round_half_even.
  replace ((a * (2 * h) + h) / (2 * h)) with a.
  2:{ apply Z.div_unique with h; lia. }
  replace ((a * (2 * h) + h) mod (2 * h)) with h.
  2:{ apply Z.mod_unique with a; lia. }
  replace (2 * h <? 2 * h) with false by (symmetry; apply Z.ltb_ge; lia).
  reflexivity.
Qed.

Lemma rhe_scale n d m :
  0 < d -> 0 < m -> round_half_even (n * m) (d * m) = round_half_even n d.
Proof.
  intros Hd Hm. unfold round_half_even.
  rewrite Z.div_mul_cancel_r, Z.mul_mod_distr_r by lia.
  replace (2 * (n mod d * m) <? d * m) with (2 * (n mod d) <? d).
  2:{ destruct (2 * (n mod d) <? d) eqn:E; symmetry;
      [apply Z.ltb_lt in E; apply Z.ltb_lt|apply Z.ltb_ge in E; apply Z.ltb_ge]; nia. }
  replace (d * m <? 2 * (n mod d * m)) with (d <? 2 * (n mod d)).
  2:{ destruct (d <? 2 * (n mod d)) eqn:E; symmetry;
      [apply Z.ltb_lt in E; apply Z.ltb_lt|apply Z.ltb_ge in E; apply Z.ltb_ge]; nia. }
  reflexivity.
Qed.

(** Double rounding is harmless when the first rounding keeps enough
    digits: rounding [N * M / P] to an integer first and then dividing by
    [M] with ties to even gives the ties-to-even rounding of [N / P],
    for an even [M] larger than [P]. *)
Lemma rhe_double n p m :
  0 < p -> p < m -> Z.even m = true ->
  round_half_even (round_half_even (n * m) p) m = round_half_even n p.
Proof.
  intros Hp Hpm Hm.
  pose proof (Z.div_mod n p ltac:(lia)) as Hn.
  pose proof (Z.mod_pos_bound n p Hp) as Hr.
  destruct (Z.eq_dec (2 * (n mod p)) p) as [Ht|Ht].
  - (* a tie: both roundings see the same tie *)
    set (a := n / p) in *. set (r := n mod p) in *.
    assert (Hpe : Z.even p = true)
      by (apply Z.even_spec; exists r; lia).
    assert (Hr2 : r = p / 2) by (rewrite <- Ht, Z.mul_comm, Z.div_mul; lia).
    apply Z.even_spec in Hm as [h Hh].
    assert (Hq : round_half_even (n * m) p = a * m + m / 2).
    { replace (m / 2) with h by (rewrite Hh, Z.mul_comm, Z.div_mul; lia).
      replace (n * m) with ((a * m + h) * p) by nia.
      apply rhe_exact; lia. }
    rewrite Hq, rhe_tie by (try lia; apply Z.even_spec; exists h; exact Hh).
    replace n with (a * p + p / 2) by lia.
    rewrite rhe_tie by (try lia; exact Hpe). reflexivity.
  - pose proof (rhe_strict n p Hp Ht) as Hx.
    pose proof (rhe_bounds (n * m) p Hp) as Hq.
    set (x := round_half_even n p) in *.
    set (q := round_half_even (n * m) p) in *.
    apply rhe_unique; [lia|]. split.
    + assert (p * (m * (2 * x - 1)) < p * (2 * q)); [|nia].
      assert (2 * n * m >= p * (2 * x - 1) * m + m) by nia. nia.
    + assert (p * (2 * q) < p * (m * (2 * x + 1))); [|nia].
      assert (2 * n * m + m <= p * (2 * x + 1) * m) by nia. nia.
Qed.

Lemma digits_fuel_spec f n :
  0 < n < 2 ^ Z.of_nat f ->
  1 <= digits_fuel f n /\ 10 ^ (digits_fuel f n - 1) <= n < 10 ^ digits_fuel f n.
Proof.
  revert n. induction f as [|f IH]; intros n Hn; cbn [digits_fuel]; [simpl in Hn; lia|].
  destruct (n <? 10) eqn:E; [apply Z.ltb_lt in E; simpl; lia|apply Z.ltb_ge in E].
  rewrite Nat2Z.inj_succ, Z.pow_succ_r in Hn by lia.
  pose proof (Z.div_mod n 10 ltac:(lia)) as Hd.
  pose proof (Z.mod_pos_bound n 10 ltac:(lia)) as Hm.
  destruct (IH (n / 10)) as (H1 & H2 & H3); [split; [apply Z.div_str_pos; lia|]|].
  - apply Z.div_lt_upper_bound; lia.
  - set (k := digits_fuel f (n / 10)) in *.
    replace (1 + k - 1) with (Z.succ (k - 1)) by lia.
    rewrite Z.pow_succ_r by lia.
    replace (1 + k) with (Z.succ k) by lia.
    rewrite Z.pow_succ_r by lia. lia.
Qed.

Lemma digits_spec n :
  0 < n -> 1 <= digits n /\ 10 ^ (digits n - 1) <= n < 10 ^ digits n.
Proof.
  intros Hn. unfold digits. rewrite Z.abs_eq by lia.
  apply digits_fuel_spec. split; [exact Hn|].
  rewrite Nat2Z.inj_succ, Z2Nat.id by (apply Z.log2_nonneg).
  apply Z.log2_spec; exact Hn.
Qed.

Lemma digits_zero : digits 0 = 1.
Proof. reflexivity. Qed.

(** [n < 10^j] bounds the number of digits by [j]. *)
Lemma digits_le n j : 0 <= n -> 1 <= j -> n < 10 ^ j -> digits n <= j.
Proof.
  intros Hn Hj Hlt. destruct (Z.eq_dec n 0) as [->|Hnz]; [rewrite digits_zero; lia|].
  destruct (digits_spec n ltac:(lia)) as (H1 & H2 & _).
  assert (digits n - 1 < j); [|lia].
  apply (Z.pow_lt_mono_r_iff 10); lia.
Qed.

Lemma pow10_pos k : 0 < 10 ^ k \/ k < 0.
Proof. destruct (Z_lt_le_dec k 0); [right; lia|left; apply Z.pow_pos_nonneg; lia]. Qed.

(** [finalize] does not round a coefficient with at most [prec]
    significant digits: it only strips trailing zeros. *)
Lemma finalize_exact x j e :
  0 <= x < 10 ^ prec -> 0 <= j ->
  exists i c', 0 <= i <= j /\ finalize (x * 10 ^ j) e = mkDec c' (e + i)
               /\ c' * 10 ^ i = x * 10 ^ j /\ 0 <= c' < 10 ^ prec.
Proof.
  intros Hx Hj. unfold finalize.
  assert (Hpj : 0 < 10 ^ j) by (apply Z.pow_pos_nonneg; lia).
  set (c := x * 10 ^ j).
  destruct (digits c <=? prec) eqn:E.
  - apply Z.leb_le in E. exists 0, c. rewrite Z.add_0_r, Z.pow_0_r, Z.mul_1_r.
    split; [lia|]. split; [reflexivity|]. split; [reflexivity|].
    destruct (Z.eq_dec c 0) as [Hc|Hc]; [unfold prec; lia|].
    destruct (digits_spec c ltac:(unfold c; nia)) as (_ & _ & H3).
    split; [unfold c; nia|].
    eapply Z.lt_le_trans; [exact H3|]. apply Z.pow_le_mono_r; lia.
  - apply Z.leb_gt in E.
    assert (Hc : 0 < c).
    { destruct (Z.eq_dec c 0) as [Hc|Hc]; [rewrite Hc, digits_zero in E; unfold prec in E; lia|].
      unfold c; nia. }
    destruct (digits_spec c Hc) as (H1 & H2 & H3).
    set (d := digits c) in *.
    assert (Hdj : d - prec <= j).
    { assert (d - 1 < prec + j); [|lia].
      apply (Z.pow_lt_mono_r_iff 10); [lia|unfold prec; lia|].
      rewrite Z.pow_add_r by (unfold prec; lia). unfold c in H2. nia. }
    exists (d - prec), (x * 10 ^ (j - (d - prec))).
    assert (Hsplit : c = x * 10 ^ (j - (d - prec)) * 10 ^ (d - prec)).
    { unfold c. rewrite <- Z.mul_assoc, <- Z.pow_add_r by lia.
      f_equal. f_equal. lia. }
    assert (Hp2 : 0 < 10 ^ (d - prec)) by (apply Z.pow_pos_nonneg; lia).
    assert (Hp3 : 0 < 10 ^ (j - (d - prec))) by (apply Z.pow_pos_nonneg; lia).
    split; [lia|]. split.
    + rewrite Z.sgn_pos, Z.abs_eq by lia. rewrite Hsplit at 1.
      rewrite rhe_exact by exact Hp2. f_equal. lia.
    + split; [symmetry; exact Hsplit|]. split; [nia|].
      apply (Z.mul_lt_mono_pos_r (10 ^ (d - prec))); [exact Hp2|].
      rewrite <- Hsplit, <- Z.pow_add_r by (unfold prec in *; lia).
      replace (prec + (d - prec)) with d by lia. exact H3.
Qed.

Lemma finalize_le c e :
  0 <= c <= 10 ^ prec ->
  exists i c', 0 <= i <= 1 /\ finalize c e = mkDec c' (e + i)
               /\ c' * 10 ^ i = c /\ 0 <= c' < 10 ^ prec.
Proof.
  intros Hc. destruct (Z.eq_dec c (10 ^ prec)) as [Heq|Hne].
  - destruct (finalize_exact (10 ^ (prec - 1)) 1 e) as (i & c' & Hi & H1 & H2 & H3);
      [unfold prec; lia|lia|].
    exists i, c'. replace c with (10 ^ (prec - 1) * 10 ^ 1)
      by (rewrite Heq, <- Z.pow_add_r by (unfold prec; lia); reflexivity).
    auto.
  - destruct (finalize_exact c 0 e) as (i & c' & Hi & H1 & H2 & H3); [lia|lia|].
    exists i, c'. rewrite Z.pow_0_r, Z.mul_1_r in *. repeat split; auto; lia.
Qed.

(** The division shift puts at least [prec - 1] digits after the point
    of [ca / cb <= 1] and keeps the quotient below [10^prec]. *)
Lemma div_shift_spec ca cb :
  0 < ca <= cb ->
  prec - 1 <= div_shift ca cb /\ ca * 10 ^ div_shift ca cb < 10 ^ prec * cb.
Proof.
  intros Hc. unfold div_shift.
  destruct (digits_spec ca ltac:(lia)) as (A1 & A2 & A3).
  destruct (digits_spec cb ltac:(lia)) as (B1 & B2 & B3).
  assert (Hd : digits ca <= digits cb) by (apply digits_le; lia).
  set (k0 := prec - 1 + digits cb - digits ca).
  assert (Hk0 : 0 <= k0) by (unfold k0, prec; lia).
  replace (0 <=? k0) with true by (symmetry; apply Z.leb_le; exact Hk0).
  assert (Hpk : 0 < 10 ^ k0) by (apply Z.pow_pos_nonneg; lia).
  destruct (ca * 10 ^ k0 >=? 10 ^ (prec - 1) * cb) eqn:E.
  - split; [unfold k0; lia|].
    assert (Hup : 10 ^ digits ca * 10 ^ k0 = 10 ^ prec * 10 ^ (digits cb - 1)).
    { rewrite <- !Z.pow_add_r by (unfold k0, prec in *; lia). f_equal. unfold k0. lia. }
    nia.
  - rewrite Z.geb_leb in E. apply Z.leb_gt in E. split; [unfold k0; lia|].
    rewrite Z.pow_add_r by lia.
    replace (10 ^ prec) with (10 ^ (prec - 1) * 10 ^ 1)
      by (rewrite <- Z.pow_add_r by (unfold prec; lia); reflexivity).
    nia.
Qed.

Lemma rhe_zero d : 0 < d -> round_half_even 0 d = 0.
Proof.
  intros Hd. unfold round_half_even.
  rewrite Z.div_0_l, Z.mod_0_l by lia. simpl.
  replace (0 <? d) with true by (symmetry; apply Z.ltb_lt; lia). reflexivity.
Qed.

Lemma sgn_rhe c d :
  0 <= c -> 0 < d -> Z.sgn c * round_half_even (Z.abs c) d = round_half_even c d.
Proof.
  intros Hc Hd. rewrite Z.abs_eq by exact Hc.
  destruct (Z.eq_dec c 0) as [->|Hnz]; [rewrite rhe_zero by exact Hd; reflexivity|].
  rewrite Z.sgn_pos by lia. lia.
Qed.

End DecimalFacts.

(* ------------------------------------------------------------------ *)
(** ** Lemmas on product pricing *)

Module PricingFacts.
Import Decimal DecimalFacts Pricing.
Local Open Scope Z_scope.

Lemma lt_decimal_field a b : lt (decimal_field a) (decimal_field b) = (a <? b).
Proof.
  unfold lt, decimal_field. simpl. rewrite !Z.mul_1_r. reflexivity.
Qed.

Lemma has_discount_product_of p d :
  has_discount (product_of p d) =
  match d with Some dc => dc <? p | None => false end.
Proof.
  destruct d as [dc|]; [|reflexivity].
  unfold has_discount, product_of. simpl. apply lt_decimal_field.
Qed.

(** The whole computation [round((price - discount_price) / price * 100, 2)]
    on field values with an effective discount. *)
Lemma discount_chain p dc :
  0 <= dc -> dc < p -> p < 10 ^ 10 ->
  discount_percentage (product_of p (Some dc)) =
  Ok (PyDecimal (mkDec (round_half_even (10000 * (p - dc)) p) (-2))).
Proof.
  intros Hd Hdp Hp.
  unfold discount_percentage. rewrite has_discount_product_of.
  replace (dc <? p) with true by (symmetry; apply Z.ltb_lt; exact Hdp).
  unfold product_of. cbn [discount_price price option_map].
  set (A := p - dc).
  (* the subtraction is exact *)
  assert (Hsub : sub (decimal_field p) (decimal_field dc) = mkDec A (-2)).
  { unfold sub, decimal_field. cbn [coef exp].
    replace (Z.min (-2) (-2)) with (-2) by reflexivity.
    replace (-2 - -2) with 0 by reflexivity.
    replace (p * 10 ^ 0 - dc * 10 ^ 0) with (A * 10 ^ 0) by (unfold A; lia).
    destruct (finalize_exact A 0 (-2)) as (i & c' & Hi & H1 & H2 & _);
      [unfold A, prec in *; split; [lia|]; eapply Z.lt_trans; [exact (Z.lt_le_trans _ _ _ (ltac:(lia) : p - dc < 10 ^ 10) (Z.le_refl _))|reflexivity]|lia|].
    rewrite H1. replace i with 0 in * by lia.
    rewrite Z.pow_0_r, !Z.mul_1_r in H2. rewrite H2. f_equal. }
  rewrite Hsub.
  (* the division, correctly rounded to 28 digits *)
  destruct (div_shift_spec A p ltac:(unfold A; lia)) as (Hk & Hkq).
  set (k := div_shift A p) in *.
  set (q := round_half_even (A * 10 ^ k) p).
  assert (Hpk : 0 < 10 ^ k) by (apply Z.pow_pos_nonneg; unfold prec in Hk; lia).
  assert (Hq : 0 <= q <= 10 ^ prec).
  { pose proof (rhe_bounds (A * 10 ^ k) p ltac:(lia)) as Hb. fold q in Hb.
    assert (0 < A) by (unfold A; lia).
    split; [nia|].
    assert (p * (2 * q - 1) < p * (2 * 10 ^ prec)) by nia. nia. }
  destruct (finalize_le q (-2 - -2 - k) Hq) as (i1 & c1 & Hi1 & F1 & E1 & B1).
  assert (Hdiv : div (mkDec A (-2)) (decimal_field p) = Ok (mkDec c1 (-2 - -2 - k + i1))).
  { unfold div, decimal_field. cbn [coef exp].
    replace (p =? 0) with false by (symmetry; apply Z.eqb_neq; lia).
    replace (A =? 0) with false by (symmetry; apply Z.eqb_neq; unfold A; lia).
    rewrite !Z.abs_eq by (unfold A; lia). fold k.
    replace (0 <=? k) with true by (symmetry; apply Z.leb_le; unfold prec in Hk; lia).
    fold q. rewrite Z.sgn_pos, Z.sgn_pos by (unfold A; lia).
    rewrite !Z.mul_1_l. rewrite F1. reflexivity. }
  rewrite Hdiv.
  (* the multiplication by 100 is exact *)
  destruct (finalize_exact c1 2 (-2 - -2 - k + i1 + 0)) as (i2 & c2 & Hi2 & F2 & E2 & B2);
    [exact B1|lia|].
  unfold mul, of_int. cbn [coef exp].
  replace (c1 * 100) with (c1 * 10 ^ 2) by reflexivity.
  rewrite F2.
  (* the rounding to two places *)
  unfold round, quantize. cbn [coef exp]. change (- (2)) with (-2).
  replace (- 2 <=? -2 - -2 - k + i1 + 0 + i2) with false
    by (symmetry; apply Z.leb_gt; unfold prec in Hk; lia).
  set (t := - 2 - (-2 - -2 - k + i1 + 0 + i2)).
  assert (Ht : 0 <= t) by (unfold t, prec in *; lia).
  assert (Hpt : 0 < 10 ^ t) by (apply Z.pow_pos_nonneg; lia).
  rewrite sgn_rhe by lia.
  assert (Hpi : 0 < 10 ^ (i1 + i2)) by (apply Z.pow_pos_nonneg; lia).
  rewrite <- (rhe_scale c2 (10 ^ t) (10 ^ (i1 + i2))) by lia.
  assert (Hnum : c2 * 10 ^ (i1 + i2) = q * 100).
  { rewrite Z.pow_add_r by lia. rewrite (Z.mul_comm (10 ^ i1)), Z.mul_assoc, E2.
    rewrite <- Z.mul_assoc, (Z.mul_comm (10 ^ 2)), Z.mul_assoc, E1. reflexivity. }
  assert (Hden : 10 ^ t * 10 ^ (i1 + i2) = 10 ^ (k - 4) * 100).
  { rewrite <- Z.pow_add_r by lia.
    replace 100 with (10 ^ 2) by reflexivity.
    rewrite <- Z.pow_add_r by (unfold prec in Hk; lia). f_equal. unfold t. lia. }
  rewrite Hnum, Hden, rhe_scale by (try lia; apply Z.pow_pos_nonneg; unfold prec in Hk; lia).
  unfold q.
  replace (A * 10 ^ k) with ((10000 * A) * 10 ^ (k - 4)).
  2:{ replace 10000 with (10 ^ 4) by reflexivity.
      rewrite (Z.mul_comm (10 ^ 4) A), <- Z.mul_assoc, <- Z.pow_add_r
        by (unfold prec in Hk; lia).
      replace (4 + (k - 4)) with k by lia. reflexivity. }
  rewrite rhe_double.
  2:{ lia. }
  2:{ eapply Z.lt_le_trans; [exact Hp|]. apply Z.pow_le_mono_r; unfold prec in Hk; lia. }
  2:{ apply Z.even_spec. exists (5 * 10 ^ (k - 5)).
      replace (k - 4) with (Z.succ (k - 5)) by lia.
      rewrite Z.pow_succ_r by (unfold prec in Hk; lia). lia. }
  (* the quantized coefficient has few digits *)
  pose proof (rhe_bounds (10000 * A) p ltac:(lia)) as Hb.
  set (x := round_half_even (10000 * A) p) in *.
  assert (Hx : 0 <= x <= 10000).
  { assert (0 < A) by (unfold A; lia). split; [nia|].
    assert (p * (2 * x - 1) < p * 20001) by (unfold A in *; nia). nia. }
  replace (prec <? digits x) with false.
  2:{ symmetry. apply Z.ltb_ge. transitivity 5; [|unfold prec; lia].
      apply digits_le; lia. }
  reflexivity.
Qed.

(** C2: on field values, [discount_percentage] is the [int] [0] when the
    discount price is absent or not below the price, and otherwise the
    [Decimal] with two places equal to [round(100*(price-discount_price)/price, 2)]
    computed exactly (ties to even); [has_discount] holds exactly when the
    discount price is set and below the price. *)
Theorem discount_percentage_correct p d :
  field_ok p -> (forall dc, d = Some dc -> field_ok dc) ->
  has_discount (product_of p d) = match d with Some dc => dc <? p | None => false end /\
  discount_percentage (product_of p d) =
    match d with
    | Some dc => if dc <? p
                 then Ok (PyDecimal (mkDec (spec_discount_percentage p d) (-2)))
                 else Ok (PyInt 0)
    | None => Ok (PyInt 0)
    end.
Proof.
  intros Hp Hd. split; [apply has_discount_product_of|].
  destruct d as [dc|].
  - specialize (Hd dc eq_refl). unfold field_ok in *.
    destruct (dc <? p) eqn:E.
    + apply Z.ltb_lt in E. rewrite discount_chain by lia.
      unfold spec_discount_percentage. rewrite (proj2 (Z.ltb_lt dc p) E). reflexivity.
    + unfold discount_percentage. rewrite has_discount_product_of, E. reflexivity.
  - reflexivity.
Qed.

(** [finalize] never rounds a non-zero coefficient to zero. *)
Lemma finalize_nonzero c e : c <> 0 -> coef (finalize c e) <> 0.
Proof.
  intros Hc. unfold finalize.
  destruct (digits c <=? prec) eqn:E; cbn [coef]; [exact Hc|].
  apply Z.leb_gt in E.
  assert (Hd : digits (Z.abs c) = digits c) by (unfold digits; rewrite Z.abs_idemp; reflexivity).
  destruct (digits_spec (Z.abs c) ltac:(lia)) as (_ & Hlo & _). rewrite Hd in Hlo.
  set (m := 10 ^ (digits c - prec)).
  assert (Hm : 0 < m) by (apply Z.pow_pos_nonneg; unfold prec in *; lia).
  assert (Hmle : m <= Z.abs c).
  { transitivity (10 ^ (digits c - 1)); [|exact Hlo].
    apply Z.pow_le_mono_r; unfold prec in *; lia. }
  assert (Hq : 1 <= Z.abs c / m) by (apply Z.div_le_lower_bound; lia).
  assert (Hr : Z.abs c / m <= round_half_even (Z.abs c) m).
  { unfold round_half_even.
    destruct (2 * (Z.abs c mod m) <? m); [lia|].
    destruct (m <? 2 * (Z.abs c mod m)); [lia|].
    destruct (Z.even (Z.abs c / m)); lia. }
  assert (Hs : Z.sgn c <> 0) by (destruct c; simpl; congruence).
  intros H. apply Z.mul_eq_0 in H as [H|H]; [exact (Hs H)|lia].
Qed.

(** C3, as the claim is stated: a product with price [0] and a discount
    price returns [0] without dividing, and no discount price in the field
    domain makes the computation raise. *)
Lemma zero_price_no_division :
  discount_percentage (product_of 0 (Some 500)) = Ok (PyInt 0) /\
  ~ (exists dc e, field_ok dc /\ discount_percentage (product_of 0 (Some dc)) = Exc e).
Proof.
  split; [reflexivity|].
  intros (dc & e & Hdc & H). unfold discount_percentage in H.
  rewrite has_discount_product_of in H. unfold field_ok in Hdc.
  replace (dc <? 0) with false in H by (symmetry; apply Z.ltb_ge; lia).
  discriminate.
Qed.

(** C3 amended: with price [0] and a discount price allowed by
    [MinValueValidator(0)], [has_discount] is false and
    [discount_percentage] returns [0] without dividing; the division by
    the zero price happens only for a negative discount price, which the
    validator rejects, and raises [DivisionByZero] there. *)
Theorem zero_price_guarded_by_has_discount :
  (forall dc, field_ok dc ->
     has_discount (product_of 0 (Some dc)) = false /\
     discount_percentage (product_of 0 (Some dc)) = Ok (PyInt 0)) /\
  (forall dc, dc < 0 ->
     has_discount (product_of 0 (Some dc)) = true /\
     discount_percentage (product_of 0 (Some dc)) = Exc DivisionByZero).
Proof.
  split.
  2:{ intros dc Hdc. rewrite has_discount_product_of.
      replace (dc <? 0) with true by (symmetry; apply Z.ltb_lt; exact Hdc).
      split; [reflexivity|]. unfold discount_percentage.
      rewrite has_discount_product_of.
      replace (dc <? 0) with true by (symmetry; apply Z.ltb_lt; exact Hdc).
      cbn [discount_price price product_of option_map decimal_field].
      unfold div. cbn [coef]. rewrite Z.eqb_refl.
      replace (coef (sub (decimal_field 0) (decimal_field dc)) =? 0) with false; [reflexivity|].
      symmetry. apply Z.eqb_neq. unfold sub, decimal_field. cbn [coef exp].
      replace (0 * 10 ^ (-2 - Z.min (-2) (-2)) - dc * 10 ^ (-2 - Z.min (-2) (-2))) with (- dc)
        by (cbv [Z.min]; simpl; lia).
      apply finalize_nonzero. lia. }
  intros dc Hdc. unfold field_ok in Hdc.
  unfold discount_percentage. rewrite has_discount_product_of.
  replace (dc <? 0) with false by (symmetry; apply Z.ltb_ge; lia).
  split; reflexivity.
Qed.

End PricingFacts.

(* ------------------------------------------------------------------ *)
(** ** Lemmas on the account views *)

Module AccountsFacts.
Import Accounts.

Lemma find_app_none {A} (f : A -> bool) l l' :
  find f l = None -> find f (l ++ l') = find f l'.
Proof.
  induction l as [|x l IH]; simpl; [reflexivity|].
  destruct (f x); [discriminate|exact IH].
Qed.

Lemma find_none_intro {A} (f : A -> bool) l :
  (forall x, In x l -> f x = false) -> find f l = None.
Proof.
  induction l as [|x l IH]; simpl; intros H; [reflexivity|].
  rewrite (H x (or_introl eq_refl)). apply IH. auto.
Qed.

Lemma get_or_create_token_found u fresh ts ts' t :
  get_or_create_token u fresh ts = Some (ts', t) -> token_of u ts' = Some t.
Proof.
  unfold get_or_create_token. destruct (token_of u ts) as [t0|] eqn:E.
  - intros H. inversion H; subst. exact E.
  - destruct (existsb _ ts); [discriminate|]. intros H. inversion H; subst.
    unfold token_of in *. rewrite find_app_none by exact E.
    simpl. rewrite Nat.eqb_refl. reflexivity.
Qed.

(** C6: [get_or_create] returns the caller's existing token unchanged;
    a second login with the same credentials gets the same response,
    token included, and creates nothing; a login after a registration
    returns the token issued at registration. *)
Theorem token_issuance_idempotent :
  (forall u fresh ts t, token_of u ts = Some t ->
     get_or_create_token u fresh ts = Some (ts, t)) /\
  (forall name pw f1 f2 st st1 r1,
     UserLogin_create name pw f1 st = Done st1 r1 ->
     UserLogin_create name pw f2 st1 = Done st1 r1) /\
  (forall u f1 f2 st st1 k m name pw,
     UserRegistration_create (Valid u) f1 st = Done st1 (mkResponse 201 (BUserToken u k m)) ->
     UserLoginSerializer (users st1) name pw = Valid u ->
     UserLogin_create name pw f2 st1 =
       Done st1 (mkResponse 200 (BUserToken u k "Login successful"%string))).
Proof.
  split; [|split].
  - intros u fresh ts t H. unfold get_or_create_token. rewrite H. reflexivity.
  - intros name pw f1 f2 st st1 r1 H. unfold UserLogin_create in *.
    destruct (UserLoginSerializer (users st) name pw) as [u|errs] eqn:Es.
    + destruct (get_or_create_token (user_id u) f1 (tokens st)) as [[ts t]|] eqn:Eg;
        [|discriminate].
      inversion H; subst; clear H. simpl. rewrite Es.
      unfold get_or_create_token at 1.
      rewrite (get_or_create_token_found _ _ _ _ _ Eg). reflexivity.
    + inversion H; subst. rewrite Es. reflexivity.
  - intros u f1 f2 st st1 k m name pw H Hs. unfold UserRegistration_create in H.
    destruct (get_or_create_token (user_id u) f1 (tokens st)) as [[ts t]|] eqn:Eg;
      [|discriminate].
    inversion H; subst; clear H. unfold UserLogin_create. simpl in *. rewrite Hs.
    unfold get_or_create_token at 1.
    rewrite (get_or_create_token_found _ _ _ _ _ Eg). reflexivity.
Qed.

(** C4, as the claim is stated: a non-administrator's [list] is rejected
    with an authorization error (403) on both viewsets. *)
Lemma non_admin_list_rejected :
  let alice := mkUser 1 "alice" (make_password 7 "Str0ngPass!") true false in
  let admin := mkUser 2 "admin" (make_password 8 "Adm1nPass!!") true true in
  let st := mkState [alice; admin] [] [mkProfile 1 1; mkProfile 2 2] in
  status (UserViewSet_list (AuthUser alice) 1 st) = 403 /\
  status (UserProfileViewSet_list (AuthUser alice) 1 st) = 403.
Proof. split; reflexivity. Qed.

(** C4 amended: a non-administrator's [list] on users or profiles is
    refused by [IsAdminUser] before [get_queryset] runs; an
    administrator's [list] pages through all records; the narrowing of
    [get_queryset] applies to the other actions, where a
    non-administrator addressing another user's record gets 404. *)
Theorem list_admin_only_queryset_narrows :
  (forall u page st, is_staff u = false ->
     UserViewSet_list (AuthUser u) page st = permission_denied (AuthUser u) /\
     UserProfileViewSet_list (AuthUser u) page st = permission_denied (AuthUser u) /\
     status (permission_denied (AuthUser u)) = 403) /\
  (forall u page st, is_staff u = true ->
     UserViewSet_list (AuthUser u) page st =
       match paginate page (users st) with
       | Some (n, l) => mkResponse 200 (BUsers n l) | None => not_found end /\
     UserProfileViewSet_list (AuthUser u) page st =
       match paginate page (profiles st) with
       | Some (n, l) => mkResponse 200 (BProfiles n l) | None => not_found end) /\
  (forall u pk st, is_staff u = false -> pk <> user_id u ->
     UserViewSet_retrieve (AuthUser u) pk st = not_found).
Proof.
  split; [|split].
  - intros u page st Hs. unfold UserViewSet_list, UserProfileViewSet_list.
    simpl. rewrite Hs. repeat split.
  - intros u page st Hs. unfold UserViewSet_list, UserProfileViewSet_list.
    simpl. rewrite Hs. split; reflexivity.
  - intros u pk st Hs Hpk. unfold UserViewSet_retrieve. simpl. rewrite Hs.
    replace (find _ _) with (@None User); [reflexivity|].
    symmetry. apply find_none_intro. intros v Hin. apply filter_In in Hin as [_ Hv].
    apply Nat.eqb_eq in Hv. apply Nat.eqb_neq. congruence.
Qed.

(** C7, as the claim is stated: when the new password equals the current
    one, [change_password] succeeds and the old credential still
    verifies. *)
Lemma change_password_same_credential :
  let alice := mkUser 1 "alice" (make_password 7 "Str0ngPass!") true false in
  let st := mkState [alice] [] [] in
  let '(u', st', r) := change_password example_validate alice "Str0ngPass!" "Str0ngPass!" 9 st in
  status r = 200 /\ check_password "Str0ngPass!" (password u') = true /\
  users st' = [u'].
Proof. repeat split. Qed.

Lemma in_set_user u us v :
  In v (set_user u us) -> user_id v = user_id u -> v = u.
Proof.
  unfold set_user. intros Hin Hid. apply in_map_iff in Hin as [w [<- _]].
  destruct (user_id w =? user_id u) eqn:E; [reflexivity|].
  apply Nat.eqb_neq in E. contradiction.
Qed.

(** C7 amended: after a successful [change_password] the stored hash
    accepts the new credential, and accepts the old one exactly when it
    equals the new one. *)
Theorem change_password_success validate u old_pw new_pw salt st u' st' r :
  change_password validate u old_pw new_pw salt st = (u', st', r) -> status r = 200 ->
  check_password new_pw (password u') = true /\
  check_password old_pw (password u') = String.eqb new_pw old_pw /\
  check_password old_pw (password u) = true /\
  (forall v, In v (users st') -> user_id v = user_id u -> v = u') /\
  tokens st' = tokens st.
Proof.
  unfold change_password.
  destruct (ChangePasswordSerializer validate u old_pw new_pw) as [[o n]|errs] eqn:Es.
  2:{ intros H Hr. inversion H; subst. discriminate. }
  unfold ChangePasswordSerializer in Es.
  destruct (validate u new_pw); [injection Es as <- <-|discriminate].
  destruct (check_password old_pw (password u)) eqn:Ec.
  2:{ intros H Hr. inversion H; subst. discriminate. }
  intros H _. inversion H; subst; clear H. simpl.
  rewrite String.eqb_refl. split; [reflexivity|]. split; [reflexivity|].
  split; [reflexivity|]. split; [|reflexivity].
  intros v Hin Hid. apply (in_set_user _ _ _ Hin). exact Hid.
Qed.

(** C8, as the claim is stated: with a wrong current credential and a
    new password that the validators reject ([password] is too common) the
    answer is the serializer's error on [new_password], not the
    credential-mismatch error. *)
Lemma change_password_mismatch_weak_new :
  let alice := mkUser 1 "alice" (make_password 7 "Str0ngPass!") true false in
  let st := mkState [alice] [mkToken "k-alice" 1] [] in
  check_password "wrong-pass" (password alice) = false /\
  change_password example_validate alice "wrong-pass" "password" 9 st =
    (alice, st, mkResponse 400
       (BFieldErrors [("new_password", ["This password is too common."])]%string)).
Proof. split; reflexivity. Qed.

(** C8: when the current credential does not match, [change_password]
    answers 400 and changes neither the user, the user table nor the
    token table, whatever the password validation is; the error is the
    credential-mismatch error when the new password passes the
    validators, and the validators' messages on [new_password] otherwise. *)
Theorem change_password_mismatch validate u old_pw new_pw salt st :
  check_password old_pw (password u) = false ->
  change_password validate u old_pw new_pw salt st =
    (u, st, mkResponse 400 (BFieldErrors
       match validate u new_pw with
       | [] => [("old_password", ["Wrong password."])]%string
       | errs => [("new_password"%string, errs)]
       end)).
Proof.
  intros Hc. unfold change_password, ChangePasswordSerializer.
  destruct (validate u new_pw); [rewrite Hc|]; reflexivity.
Qed.

(** C9: both logout endpoints delete the caller's token when there is
    one (200), and answer with an error status when the caller has no
    token, changing nothing. *)
Theorem logout_deletes_or_signals :
  (forall u st t, token_of (user_id u) (tokens st) = Some t ->
     UserViewSet_logout (AuthUser u) st =
       (mkState (users st) (delete_token t (tokens st)) (profiles st),
        mkResponse 200 (BMessage "Logged out successfully"%string)) /\
     logout_view (AuthUser u) st =
       (mkState (users st) (delete_token t (tokens st)) (profiles st),
        mkResponse 200 (BMessage "Logged out successfully"%string)) /\
     ~ In t (delete_token t (tokens st))) /\
  (forall c st, caller_token c (tokens st) = None ->
     fst (UserViewSet_logout c st) = st /\ 400 <= status (snd (UserViewSet_logout c st)) /\
     fst (logout_view c st) = st /\ 400 <= status (snd (logout_view c st))).
Proof.
  split.
  - intros u st t Ht. unfold UserViewSet_logout, logout_view, delete_auth_token.
    simpl. rewrite Ht. repeat split.
    unfold delete_token. rewrite filter_In, String.eqb_refl. simpl. intros [_ H].
    discriminate.
  - intros [|u] st Hn; unfold UserViewSet_logout, logout_view, delete_auth_token;
      simpl in *; [repeat split; simpl; auto with arith|].
    rewrite Hn. repeat split; simpl; auto with arith.
Qed.

End AccountsFacts.

(* ------------------------------------------------------------------ *)
(** ** Lemmas on the Category table *)

Module CategoriesFacts.
Import Categories.

Lemma unique_ok_cons r t :
  unique_ok (r :: t) = true <->
  (forall r', In r' t -> clash r r' = false) /\ unique_ok t = true.
Proof.
  simpl. rewrite andb_true_iff, negb_true_iff. split.
  - intros [Hn Ht]. split; [|exact Ht]. intros r' Hin.
    destruct (clash r r') eqn:E; [|reflexivity].
    assert (existsb (clash r) t = true) by (apply existsb_exists; eauto). congruence.
  - intros [Hn Ht]. split; [|exact Ht].
    destruct (existsb (clash r) t) eqn:E; [|reflexivity].
    apply existsb_exists in E as [r' [Hin Hc]]. rewrite (Hn r' Hin) in Hc. discriminate.
Qed.

Lemma cat_clash_sym a b : clash a b = clash b a.
Proof.
  unfold clash. rewrite Nat.eqb_sym, (String.eqb_sym (name a)), (String.eqb_sym (slug a)).
  reflexivity.
Qed.

Lemma clash_false_id a b : clash a b = false -> cat_id a <> cat_id b.
Proof.
  unfold clash. intros H. apply orb_false_iff in H as [H _].
  apply orb_false_iff in H as [H _]. apply Nat.eqb_neq, H.
Qed.

Lemma unique_ok_map s c :
  unique_ok s = true ->
  (forall r, In r s -> cat_id r <> cat_id c -> clash r c = false) ->
  unique_ok (map (fun r => if cat_id r =? cat_id c then c else r) s) = true.
Proof.
  induction s as [|r t IH]; [reflexivity|].
  intros Hu Hc. apply unique_ok_cons in Hu as [Hn Ht].
  cbn [map]. apply unique_ok_cons. split.
  - intros x Hx. apply in_map_iff in Hx as [r' [<- Hr']].
    specialize (Hn r' Hr'). pose proof (clash_false_id _ _ Hn) as Hid.
    destruct (cat_id r =? cat_id c) eqn:E1.
    + apply Nat.eqb_eq in E1.
      replace (cat_id r' =? cat_id c) with false
        by (symmetry; apply Nat.eqb_neq; congruence).
      rewrite cat_clash_sym. apply Hc; [right; exact Hr'|congruence].
    + apply Nat.eqb_neq in E1. destruct (cat_id r' =? cat_id c) eqn:E2.
      * apply Hc; [left; reflexivity|exact E1].
      * exact Hn.
  - apply IH; [exact Ht|]. intros r' Hr'. apply Hc. right. exact Hr'.
Qed.

Lemma unique_ok_snoc s c :
  unique_ok s = true -> (forall r, In r s -> clash r c = false) ->
  unique_ok (s ++ [c]) = true.
Proof.
  induction s as [|r t IH]; [reflexivity|].
  intros Hu Hc. apply unique_ok_cons in Hu as [Hn Ht].
  cbn [app]. apply unique_ok_cons. split.
  - intros x Hx. apply in_app_or in Hx as [Hx|[<-|[]]]; [apply Hn, Hx|].
    apply Hc. left. reflexivity.
  - apply IH; [exact Ht|]. intros r' Hr'. apply Hc. right. exact Hr'.
Qed.

Lemma has_id_model_save c s q :
  has_id s q = true \/ q = cat_id c -> has_id (model_save c s) q = true.
Proof.
  intros Hq. unfold model_save, has_id in *.
  destruct (existsb (fun r => cat_id r =? cat_id c) s) eqn:Ex.
  - apply existsb_exists. destruct Hq as [Hq| ->].
    + apply existsb_exists in Hq as [r [Hin Hr]].
      destruct (cat_id r =? cat_id c) eqn:E.
      * exists c. split; [|apply Nat.eqb_eq in Hr, E; apply Nat.eqb_eq; congruence].
        apply in_map_iff. exists r. rewrite E. auto.
      * exists r. split; [|exact Hr]. apply in_map_iff. exists r. rewrite E. auto.
    + apply existsb_exists in Ex as [r [Hin Hr]]. exists c.
      split; [|apply Nat.eqb_refl]. apply in_map_iff. exists r. rewrite Hr. auto.
  - rewrite existsb_app. apply orb_true_iff. destruct Hq as [Hq| ->]; [left; exact Hq|].
    right. simpl. rewrite Nat.eqb_refl. reflexivity.
Qed.

Lemma cat_in_model_save c s x : In x (model_save c s) -> x = c \/ In x s.
Proof.
  unfold model_save. destruct (has_id s (cat_id c)).
  - intros Hx. apply in_map_iff in Hx as [r [<- Hr]].
    destruct (cat_id r =? cat_id c); [left|right]; auto.
  - intros Hx. apply in_app_or in Hx as [Hx|[<-|[]]]; auto.
Qed.

Lemma with_slug_fields c :
  cat_id (with_slug c) = cat_id c /\ name (with_slug c) = name c /\
  parent (with_slug c) = parent c.
Proof. unfold with_slug. destruct (String.eqb (slug c) EmptyString); auto. Qed.

(** C5, as the claim is stated: saves that close a parent cycle are
    written, both a two-category loop and a category that is its own
    parent. *)
Lemma category_cycle_accepted :
  let s := [mkCategory 1 "Shoes" "shoes" None; mkCategory 2 "Boots" "boots" (Some 1)] in
  let s' := [mkCategory 1 "Shoes" "shoes" (Some 2); mkCategory 2 "Boots" "boots" (Some 1)] in
  constraints_ok s = true /\
  own_ancestor s 1 = false /\
  save (mkCategory 1 "Shoes" "shoes" (Some 2)) s = Returned s' /\
  own_ancestor s' 1 = true /\
  save (mkCategory 3 "Sandals" EmptyString (Some 3)) [] =
    Returned [mkCategory 3 "Sandals" "sandals" (Some 3)] /\
  own_ancestor [mkCategory 3 "Sandals" "sandals" (Some 3)] 3 = true.
Proof. vm_compute. repeat split. Qed.

(** C5 amended: [Category.save] has no cycle check.  On a table meeting
    its constraints, a category whose name and (derived) slug are not used
    by another row and whose parent is itself or an existing row is
    written, wherever its parent chain leads. *)
Theorem save_has_no_cycle_check s c :
  constraints_ok s = true ->
  (forall r, In r s -> cat_id r <> cat_id c ->
             name r <> name c /\ slug r <> slug (with_slug c)) ->
  parent_exists c s = true ->
  save c s = Returned (model_save (with_slug c) s).
Proof.
  intros Hs Hfresh Hp. unfold save.
  destruct (with_slug_fields c) as (Hid & Hname & Hpar).
  set (c' := with_slug c) in *.
  unfold constraints_ok in Hs. apply andb_true_iff in Hs as [Hu Hfk].
  assert (Hcl : forall r, In r s -> cat_id r <> cat_id c' -> clash r c' = false).
  { intros r Hr Hne. rewrite Hid in Hne. destruct (Hfresh r Hr Hne) as [Hn Hsl].
    unfold clash. rewrite Hid.
    apply Nat.eqb_neq in Hne. rewrite Hne.
    rewrite <- Hname in Hn. apply String.eqb_neq in Hn, Hsl. rewrite Hn, Hsl. reflexivity. }
  replace (constraints_ok (model_save c' s)) with true; [reflexivity|].
  symmetry. unfold constraints_ok. apply andb_true_iff. split.
  - unfold model_save. destruct (has_id s (cat_id c')) eqn:Eh.
    + apply unique_ok_map; assumption.
    + apply unique_ok_snoc; [exact Hu|]. intros r Hr. apply Hcl; [exact Hr|].
      intros Heq. unfold has_id in Eh.
      assert (existsb (fun r => cat_id r =? cat_id c') s = true)
        by (apply existsb_exists; exists r; split; [exact Hr|apply Nat.eqb_eq, Heq]).
      congruence.
  - apply forallb_forall. intros x Hx. apply cat_in_model_save in Hx as [->|Hx].
    + unfold fk_ok. rewrite Hpar. unfold parent_exists in Hp.
      destruct (parent c) as [q|]; [|reflexivity].
      apply has_id_model_save. apply orb_true_iff in Hp as [Hq|Hq].
      * right. apply Nat.eqb_eq in Hq. congruence.
      * left. exact Hq.
    + rewrite forallb_forall in Hfk. specialize (Hfk x Hx). unfold fk_ok in *.
      destruct (parent x) as [q|]; [|reflexivity].
      apply has_id_model_save. left. exact Hfk.
Qed.

End CategoriesFacts.

(* ------------------------------------------------------------------ *)
(** ** Lemmas on [slugify] *)

Module SlugifyFacts.
Import Categories SlugShape.

(** Characters that survive the filtering step of [slugify], after
    [lower]: a dash, a space, or a lower-case word character. *)
Definition kept (c : ascii) : bool :=
  is_dash c || is_space c || (is_slug_char c && negb (is_dash c)).

Lemma lower_kept c :
  implb ((code c <? 128) && (is_word (lower c) || is_space (lower c) || is_dash (lower c)))
        (kept (lower c)) = true.
Proof. destruct c as [[] [] [] [] [] [] [] []]; reflexivity. Qed.

Lemma dash_char c : is_dash c = true -> c = "-"%char.
Proof.
  destruct c as [[] [] [] [] [] [] [] []]; intros H;
    solve [reflexivity | vm_compute in H; discriminate H].
Qed.

Lemma slug_char_fixed c :
  implb (is_slug_char c)
    ((code c <? 128) && Ascii.eqb (lower c) c && (is_word c || is_space c || is_dash c)
     && negb (is_space c)) = true.
Proof. destruct c as [[] [] [] [] [] [] [] []]; reflexivity. Qed.

Lemma collapse_shape l b :
  forallb kept l = true ->
  forallb is_slug_char (collapse b l) = true /\ no_double_dash (collapse b l) = true /\
  (b = true -> starts_dash (collapse b l) = false).
Proof.
  revert b. induction l as [|c t IH]; intros b H; [repeat split; reflexivity|].
  simpl in H. apply andb_true_iff in H as [Hc Ht].
  simpl. destruct (is_dash c || is_space c) eqn:Ed.
  - destruct (IH true Ht) as (H1 & H2 & H3). destruct b.
    + repeat split; auto.
    + simpl. rewrite H1, H2, (H3 eq_refl). repeat split; discriminate.
  - destruct (IH false Ht) as (H1 & H2 & _).
    unfold kept in Hc. apply orb_false_iff in Ed as [Ed Es].
    rewrite Ed, Es, andb_true_r in Hc. simpl in Hc.
    simpl. rewrite Hc, Ed, H1, H2. repeat split; auto.
Qed.

Lemma drop_while_split (f : ascii -> bool) l :
  exists p, l = p ++ drop_while f l.
Proof.
  induction l as [|c t [p Hp]]; [exists []; reflexivity|].
  simpl. destruct (f c); [exists (c :: p); simpl; congruence|exists []; reflexivity].
Qed.

Lemma drop_while_edge l : edge_ok (drop_while strip_char l) = true.
Proof.
  induction l as [|c t IH]; [reflexivity|]. simpl.
  destruct (strip_char c) eqn:E; [exact IH|]. simpl. rewrite E. reflexivity.
Qed.

Lemma no_double_dash_app a b :
  no_double_dash (a ++ b) = true -> no_double_dash a = true /\ no_double_dash b = true.
Proof.
  induction a as [|c t IH]; simpl; [auto|].
  intros H. apply andb_true_iff in H as [Hc Ht]. destruct (IH Ht) as [H1 H2].
  split; [|exact H2]. rewrite H1, andb_true_r.
  destruct t as [|c' t']; [rewrite andb_false_r; reflexivity|exact Hc].
Qed.

Lemma edge_ok_app a b : a <> [] -> edge_ok (a ++ b) = edge_ok a.
Proof. destruct a; [contradiction|reflexivity]. Qed.

(** [.strip("-_")] returns a contiguous part of its input whose ends are
    not [-] or [_]. *)
Lemma strip_shape l :
  exists p q, l = p ++ strip_dash_underscore l ++ q /\
  edge_ok (strip_dash_underscore l) = true /\
  edge_ok (rev (strip_dash_underscore l)) = true.
Proof.
  unfold strip_dash_underscore. fold strip_char.
  set (d := drop_while strip_char l).
  set (e := drop_while strip_char (rev d)).
  destruct (drop_while_split strip_char l) as [p Hp]. fold d in Hp.
  destruct (drop_while_split strip_char (rev d)) as [p' Hp']. fold e in Hp'.
  assert (Hd : d = rev e ++ rev p').
  { rewrite <- rev_app_distr, <- Hp', rev_involutive. reflexivity. }
  exists p, (rev p'). split; [rewrite <- Hd; exact Hp|].
  split.
  - destruct (rev e) as [|x r] eqn:Er; [reflexivity|].
    pose proof (drop_while_edge l) as Hed. fold d in Hed.
    rewrite Hd, edge_ok_app in Hed by discriminate. exact Hed.
  - rewrite rev_involutive. apply drop_while_edge.
Qed.

Lemma forallb_filter_id {A} (f : A -> bool) l : forallb f l = true -> filter f l = l.
Proof.
  induction l as [|x t IH]; simpl; [reflexivity|].
  intros H. apply andb_true_iff in H as [Hx Ht]. rewrite Hx, IH by exact Ht. reflexivity.
Qed.

Lemma collapse_fixed l b :
  forallb (fun c => negb (is_space c)) l = true -> no_double_dash l = true ->
  (b = true -> starts_dash l = false) -> collapse b l = l.
Proof.
  revert b. induction l as [|c t IH]; intros b Hs Hd Hb; [reflexivity|].
  simpl in Hs, Hd. apply andb_true_iff in Hs as [Hc Hs]. apply andb_true_iff in Hd as [Hcd Hd].
  apply negb_true_iff in Hc. simpl. rewrite Hc, orb_false_r.
  destruct (is_dash c) eqn:E.
  - destruct b; [simpl in Hb; rewrite E in Hb; discriminate (Hb eq_refl)|].
    rewrite (dash_char c E). f_equal. apply IH; auto.
    intros _. destruct (starts_dash t); [discriminate Hcd|reflexivity].
  - f_equal. apply IH; auto. discriminate.
Qed.

Lemma drop_while_fixed l : edge_ok l = true -> drop_while strip_char l = l.
Proof.
  destruct l as [|c t]; [reflexivity|]. simpl. intros H.
  apply negb_true_iff in H. rewrite H. reflexivity.
Qed.

(** [slugify] always returns a slug: lower-case letters, digits, [_] and
    [-] only, no two dashes in a row, and neither end a [-] or [_]. *)
Theorem slugify_is_slug s : is_slug (slugify s) = true.
Proof.
  unfold slugify, is_slug. rewrite list_ascii_of_string_of_list_ascii.
  set (l1 := filter _ (map lower (filter _ (list_ascii_of_string s)))).
  assert (Hk : forallb kept l1 = true).
  { apply forallb_forall. intros c Hc. unfold l1 in Hc.
    apply filter_In in Hc as [Hc Hkeep]. apply in_map_iff in Hc as [c0 [<- Hc0]].
    apply filter_In in Hc0 as [_ Ha]. pose proof (lower_kept c0) as H.
    rewrite Ha, Hkeep in H. exact H. }
  destruct (collapse_shape l1 false Hk) as (H1 & H2 & _).
  set (o := collapse false l1) in *.
  destruct (strip_shape o) as (p & q & Ho & He1 & He2).
  set (r := strip_dash_underscore o) in *.
  rewrite Ho in H1, H2. rewrite !forallb_app in H1.
  apply no_double_dash_app in H2 as [_ H2]. apply no_double_dash_app in H2 as [H2 _].
  apply andb_true_iff in H1 as [_ H1]. apply andb_true_iff in H1 as [H1 _].
  rewrite H1, H2, He1, He2. reflexivity.
Qed.

(** A slug is left unchanged by [slugify]; in particular [slugify] is
    idempotent. *)
Theorem slugify_fixes_slugs :
  (forall s, is_slug s = true -> slugify s = s) /\
  (forall s, slugify (slugify s) = slugify s).
Proof.
  assert (Hfix : forall s, is_slug s = true -> slugify s = s).
  { intros s H. unfold is_slug in H. set (l := list_ascii_of_string s) in *.
    apply andb_true_iff in H as [H He2]. apply andb_true_iff in H as [H He1].
    apply andb_true_iff in H as [Hc Hd].
    assert (Hall : forall c, In c l ->
      (code c <? 128) = true /\ lower c = c /\ (is_word c || is_space c || is_dash c) = true
      /\ is_space c = false).
    { intros c Hin. pose proof (slug_char_fixed c) as F.
      rewrite (proj1 (forallb_forall _ _) Hc c Hin) in F. simpl in F.
      apply andb_true_iff in F as [F Fs]. apply andb_true_iff in F as [F Fw].
      apply andb_true_iff in F as [Fa Fl].
      apply Ascii.eqb_eq in Fl. apply negb_true_iff in Fs. auto. }
    unfold slugify. fold l.
    rewrite (forallb_filter_id (fun c => code c <? 128) l)
      by (apply forallb_forall; intros c Hin; apply Hall, Hin).
    rewrite (map_ext_in lower (fun c => c) l) by (intros c Hin; apply Hall, Hin).
    rewrite map_id.
    rewrite forallb_filter_id by (apply forallb_forall; intros c Hin; apply Hall, Hin).
    rewrite collapse_fixed; [| |exact Hd|discriminate].
    2:{ apply forallb_forall. intros c Hin. apply negb_true_iff, Hall, Hin. }
    unfold strip_dash_underscore. fold strip_char.
    rewrite (drop_while_fixed l He1), (drop_while_fixed (rev l) He2).
    rewrite rev_involutive. apply string_of_list_ascii_of_string. }
  split; [exact Hfix|]. intros s. apply Hfix, slugify_is_slug.
Qed.

End SlugifyFacts.

(* ------------------------------------------------------------------ *)
(** ** Tables with unique constraints, in general *)

Module TableFacts.

Section Unique.
Variable R : Type.
Variable clash : R -> R -> bool.
Variable ok : list R -> bool.
Hypothesis ok_nil : ok [] = true.
Hypothesis ok_cons : forall r t, ok (r :: t) = negb (existsb (clash r) t) && ok t.

(** Two distinct rows of a table meeting its constraints never clash. *)
Lemma ok_no_clash s a b :
  ok s = true -> In a s -> In b s -> a <> b -> clash a b = true -> clash b a = true -> False.
Proof.
  induction s as [|x t IH]; [intros _ []|].
  rewrite ok_cons. intros H Ha Hb Hne Hab Hba.
  apply andb_true_iff in H as [Hn Ht]. apply negb_true_iff in Hn.
  destruct Ha as [Ea|Ha]; destruct Hb as [Eb|Hb].
  - congruence.
  - subst x. assert (existsb (clash a) t = true) by (apply existsb_exists; eauto). congruence.
  - subst x. assert (existsb (clash b) t = true) by (apply existsb_exists; eauto). congruence.
  - eauto.
Qed.

Lemma ok_snoc s x :
  ok (s ++ [x]) = ok s && forallb (fun r => negb (clash r x)) s.
Proof.
  induction s as [|r t IH]; simpl.
  - rewrite ok_cons, ok_nil. reflexivity.
  - rewrite !ok_cons, IH, existsb_app. simpl. rewrite orb_false_r.
    destruct (clash r x), (existsb (clash r) t), (ok t),
      (forallb (fun r => negb (clash r x)) t); reflexivity.
Qed.

(** A map that keeps non-clashing rows apart keeps the constraints. *)
Lemma ok_map (f : R -> R) s :
  (forall a b, In a s -> In b s -> clash a b = false -> clash (f a) (f b) = false) ->
  ok s = true -> ok (map f s) = true.
Proof.
  induction s as [|r t IH]; intros Hf; [intros _; exact ok_nil|].
  simpl. rewrite !ok_cons. intros H. apply andb_true_iff in H as [Hn Ht].
  apply negb_true_iff in Hn. rewrite IH; [|intros; apply Hf; simpl; auto|exact Ht].
  rewrite andb_true_r. apply negb_true_iff.
  destruct (existsb (clash (f r)) (map f t)) eqn:E; [|reflexivity].
  apply existsb_exists in E as [y [Hy Hc]]. apply in_map_iff in Hy as [b [<- Hb]].
  rewrite Hf in Hc; [discriminate|left; reflexivity|right; exact Hb|].
  destruct (clash r b) eqn:Erb; [|reflexivity].
  assert (existsb (clash r) t = true) by (apply existsb_exists; eauto). congruence.
Qed.

Lemma ok_filter (f : R -> bool) s : ok s = true -> ok (filter f s) = true.
Proof.
  induction s as [|r t IH]; simpl; [auto|]. rewrite ok_cons. intros H.
  apply andb_true_iff in H as [Hn Ht]. destruct (f r); [|auto].
  rewrite ok_cons, IH by exact Ht. rewrite andb_true_r. apply negb_true_iff.
  apply negb_true_iff in Hn. destruct (existsb (clash r) (filter f t)) eqn:E; [|reflexivity].
  apply existsb_exists in E as [x [Hx Hc]]. apply filter_In in Hx as [Hx _].
  assert (existsb (clash r) t = true) by (apply existsb_exists; eauto). congruence.
Qed.

End Unique.

Section Save.
Variable R : Type.
Variable rid : R -> nat.
Variable ms : R -> list R -> list R.
Hypothesis ms_eq : forall c s,
  ms c s = if existsb (fun r => rid r =? rid c) s
           then map (fun r => if rid r =? rid c then c else r) s else s ++ [c].

(** [Model.save] stores the saved row and keeps every row with another key. *)
Lemma ms_self c s : In c (ms c s).
Proof.
  rewrite ms_eq. destruct (existsb _ s) eqn:E.
  - apply existsb_exists in E as [r [Hr E]]. apply in_map_iff. exists r. rewrite E. auto.
  - apply in_or_app. right. left. reflexivity.
Qed.

Lemma ms_other c s r : In r s -> rid r <> rid c -> In r (ms c s).
Proof.
  intros Hr Hne. rewrite ms_eq. destruct (existsb _ s).
  - apply in_map_iff. exists r. apply Nat.eqb_neq in Hne. rewrite Hne. auto.
  - apply in_or_app. left. exact Hr.
Qed.

End Save.

(** [filter g (map h l)] is [filter g l] when [h] keeps [g] and fixes the
    rows [g] selects. *)
Lemma filter_map_fixed {A} (g : A -> bool) (h : A -> A) l :
  (forall r, In r l -> g (h r) = g r /\ (g r = true -> h r = r)) ->
  filter g (map h l) = filter g l.
Proof.
  induction l as [|r t IH]; intros H; [reflexivity|]. simpl.
  destruct (H r (or_introl eq_refl)) as [H1 H2]. rewrite H1.
  rewrite IH by (intros; apply H; right; assumption).
  destruct (g r) eqn:E; [rewrite (H2 eq_refl); reflexivity|reflexivity].
Qed.

End TableFacts.

(* ------------------------------------------------------------------ *)
(** ** Slug collisions on save *)

Module SlugSaveFacts.
Import TableFacts.

(** Category: a category saved with a blank slug whose name slugifies to
    the slug of another stored category is refused by the unique
    constraint on [slug] (even though the names differ), and the table is
    left as it was. *)
Theorem category_blank_slug_collision s c1 c2 :
  In c1 s -> Categories.cat_id c2 <> Categories.cat_id c1 ->
  Categories.slug c2 = EmptyString ->
  Categories.slugify (Categories.name c2) = Categories.slug c1 ->
  Categories.save c2 s = Categories.Raised s.
Proof.
  intros Hin Hid Hb Hs. unfold Categories.save.
  set (c' := Categories.with_slug c2).
  assert (Hc' : c' = Categories.mkCategory (Categories.cat_id c2) (Categories.name c2)
                       (Categories.slug c1) (Categories.parent c2)).
  { unfold c', Categories.with_slug. rewrite Hb, Hs. reflexivity. }
  destruct (Categories.constraints_ok (Categories.model_save c' s)) eqn:E; [exfalso|reflexivity].
  unfold Categories.constraints_ok in E. apply andb_true_iff in E as [E _].
  apply (ok_no_clash _ Categories.clash Categories.unique_ok (fun r t => eq_refl) _ c1 c' E).
  - apply (ms_other _ Categories.cat_id _ (fun c s => eq_refl)); [exact Hin|].
    rewrite Hc'. simpl. congruence.
  - apply (ms_self _ Categories.cat_id _ (fun c s => eq_refl)).
  - rewrite Hc'. intros Heq. rewrite Heq in Hid. simpl in Hid. contradiction.
  - rewrite Hc'. unfold Categories.clash. simpl. rewrite String.eqb_refl, !orb_true_r. reflexivity.
  - rewrite Hc'. unfold Categories.clash. simpl. rewrite String.eqb_refl, !orb_true_r. reflexivity.
Qed.

(** Brand: the same for [Brand.save]. *)
Theorem brand_blank_slug_collision s b1 b2 :
  In b1 s -> Brands.brand_id b2 <> Brands.brand_id b1 ->
  Brands.brand_slug b2 = EmptyString ->
  Categories.slugify (Brands.brand_name b2) = Brands.brand_slug b1 ->
  Brands.save b2 s = Brands.Raised s.
Proof.
  intros Hin Hid Hb Hs. unfold Brands.save.
  set (b' := Brands.with_slug b2).
  assert (Hb' : b' = Brands.mkBrand (Brands.brand_id b2) (Brands.brand_name b2)
                       (Brands.brand_slug b1)).
  { unfold b', Brands.with_slug. rewrite Hb, Hs. reflexivity. }
  destruct (Brands.constraints_ok (Brands.model_save b' s)) eqn:E; [exfalso|reflexivity].
  apply (ok_no_clash _ Brands.clash Brands.constraints_ok (fun r t => eq_refl) _ b1 b' E).
  - apply (ms_other _ Brands.brand_id _ (fun c s => eq_refl)); [exact Hin|].
    rewrite Hb'. simpl. congruence.
  - apply (ms_self _ Brands.brand_id _ (fun c s => eq_refl)).
  - rewrite Hb'. intros Heq. rewrite Heq in Hid. simpl in Hid. contradiction.
  - rewrite Hb'. unfold Brands.clash. simpl. rewrite String.eqb_refl, !orb_true_r. reflexivity.
  - rewrite Hb'. unfold Brands.clash. simpl. rewrite String.eqb_refl, !orb_true_r. reflexivity.
Qed.

(** Product: names are not unique, but two products saved with a blank
    slug and the same name get the same slug, so once the first is saved
    the save of the second is refused and changes nothing. *)
Theorem product_same_name_blank_slug s s1 p1 p2 :
  Products.save p1 s = Products.Returned s1 ->
  Products.product_slug p1 = EmptyString -> Products.product_slug p2 = EmptyString ->
  Products.product_name p2 = Products.product_name p1 ->
  Products.product_id p2 <> Products.product_id p1 ->
  Products.save p2 s1 = Products.Raised s1.
Proof.
  intros H1 Hb1 Hb2 Hn Hid. unfold Products.save in *.
  set (p1' := Products.with_slug p1) in *.
  destruct (Products.constraints_ok (Products.model_save p1' s)); [|discriminate].
  injection H1 as <-.
  assert (Hin : In p1' (Products.model_save p1' s))
    by apply (ms_self _ Products.product_id _ (fun c s => eq_refl)).
  set (p2' := Products.with_slug p2).
  assert (Hp1 : p1' = Products.mkProduct (Products.product_id p1) (Products.product_name p1)
                        (Categories.slugify (Products.product_name p1))).
  { unfold p1', Products.with_slug. rewrite Hb1. reflexivity. }
  assert (Hp2 : p2' = Products.mkProduct (Products.product_id p2) (Products.product_name p2)
                        (Categories.slugify (Products.product_name p1))).
  { unfold p2', Products.with_slug. rewrite Hb2, Hn. reflexivity. }
  set (s1 := Products.model_save p1' s) in *.
  destruct (Products.constraints_ok (Products.model_save p2' s1)) eqn:E; [exfalso|reflexivity].
  apply (ok_no_clash _ Products.clash Products.constraints_ok (fun r t => eq_refl) _ p1' p2' E).
  - apply (ms_other _ Products.product_id _ (fun c s => eq_refl)); [exact Hin|].
    rewrite Hp1, Hp2. simpl. congruence.
  - apply (ms_self _ Products.product_id _ (fun c s => eq_refl)).
  - rewrite Hp1, Hp2. intros Heq. injection Heq as Heq. congruence.
  - rewrite Hp1, Hp2. unfold Products.clash. simpl. rewrite String.eqb_refl, !orb_true_r. reflexivity.
  - rewrite Hp1, Hp2. unfold Products.clash. simpl. rewrite String.eqb_refl, !orb_true_r. reflexivity.
Qed.

End SlugSaveFacts.

(* ------------------------------------------------------------------ *)
(** ** More on [ProductImage.save] *)

Module ProductImageSaveFacts.
Import ProductImages ProductImagesFacts TableFacts.

(** The row [demote_primaries p] makes of [r]. *)
Lemma demote_row p s r :
  In r s -> In (if (pi_product r =? p) && pi_is_primary r
                then mkImage (pi_id r) (pi_product r) false else r) (demote_primaries p s).
Proof. intros H. unfold demote_primaries. apply in_map_iff. exists r. auto. Qed.

Lemma demote_keys p s r :
  In r (demote_primaries p s) ->
  exists r0, In r0 s /\ pi_id r = pi_id r0 /\ pi_product r = pi_product r0.
Proof.
  unfold demote_primaries. intros H. apply in_map_iff in H as [r0 [<- H]].
  exists r0. split; [exact H|]. destruct (_ && _); auto.
Qed.

Lemma existsb_id_demote p s i :
  existsb (fun r => pi_id r =? i) (demote_primaries p s) = existsb (fun r => pi_id r =? i) s.
Proof.
  induction s as [|r t IH]; [reflexivity|]. simpl. rewrite IH.
  destruct (_ && _); reflexivity.
Qed.

(** Once a product has a primary image and a non-primary image, saving any
    image of that product with [is_primary = True] (a new image, the
    current primary itself, or the non-primary one being promoted) fails:
    the demoting UPDATE would give the product two non-primary images,
    which [unique_together] refuses, and nothing is written. *)
Theorem primary_save_blocked s img r1 r2 :
  constraints_ok s = true -> pi_is_primary img = true ->
  In r1 s -> In r2 s ->
  pi_product r1 = pi_product img -> pi_product r2 = pi_product img ->
  pi_is_primary r1 = true -> pi_is_primary r2 = false ->
  save img s = Raised s.
Proof.
  intros Hs Hprim H1 H2 Hp1 Hp2 Hr1 Hr2. unfold save. rewrite Hprim. unfold commit.
  destruct (constraints_ok (demote_primaries (pi_product img) s)) eqn:E; [exfalso|reflexivity].
  assert (Hid : pi_id r1 <> pi_id r2).
  { intros Heq. assert (Hne : r1 <> r2) by (intros ->; congruence).
    pose proof (constraints_ok_pair s r1 r2 Hs H1 H2 Hne) as Hc.
    unfold clash in Hc. rewrite Heq, Nat.eqb_refl in Hc. discriminate. }
  pose proof (demote_row (pi_product img) s r1 H1) as D1.
  pose proof (demote_row (pi_product img) s r2 H2) as D2.
  rewrite Hp1, Nat.eqb_refl, Hr1 in D1. rewrite Hr2, andb_false_r in D2. simpl in D1.
  apply (ok_no_clash _ clash constraints_ok (fun r t => eq_refl) _ _ _ E D1 D2).
  - intros Heq. rewrite <- Heq in Hid. simpl in Hid. contradiction.
  - unfold clash. simpl. rewrite ?Hp1, ?Hp2, Hr2, Nat.eqb_refl. simpl.
    rewrite orb_true_r. reflexivity.
  - unfold clash. simpl. rewrite ?Hp1, ?Hp2, Hr2, Nat.eqb_refl. simpl.
    rewrite orb_true_r. reflexivity.
Qed.

(** When the product has no non-primary image, saving a new primary image
    (a key not in the table) succeeds: the UPDATE demotes the previous
    primary image, if any, and the new image is appended. *)
Theorem primary_replace s img :
  constraints_ok s = true -> pi_is_primary img = true ->
  with_flag (pi_product img) false s = [] ->
  existsb (fun r => pi_id r =? pi_id img) s = false ->
  save img s = Returned (demote_primaries (pi_product img) s ++ [img]).
Proof.
  intros Hs Hprim Hnone Hfresh. set (p := pi_product img).
  assert (Hall : forall a, In a s -> pi_product a = p -> pi_is_primary a = true).
  { intros a Ha Hpa. destruct (pi_is_primary a) eqn:Ea; [reflexivity|exfalso].
    assert (In a (with_flag p false s)) as Hw.
    { apply filter_In. split; [exact Ha|]. rewrite Hpa, Nat.eqb_refl, Ea. reflexivity. }
    fold p in Hnone. rewrite Hnone in Hw. exact Hw. }
  assert (Hd : constraints_ok (demote_primaries p s) = true).
  { apply (ok_map _ clash constraints_ok eq_refl (fun r t => eq_refl)); [|exact Hs].
    intros a b Ha Hb Hab. unfold clash in Hab |- *.
    apply orb_false_iff in Hab as [Hi Hpf].
    assert (Ka : forall r, pi_id (if (pi_product r =? p) && pi_is_primary r
                                 then mkImage (pi_id r) (pi_product r) false else r) = pi_id r
                        /\ pi_product (if (pi_product r =? p) && pi_is_primary r
                                 then mkImage (pi_id r) (pi_product r) false else r) = pi_product r)
      by (intros r; destruct ((pi_product r =? p) && pi_is_primary r); split; reflexivity).
    rewrite (proj1 (Ka a)), (proj2 (Ka a)), (proj1 (Ka b)), (proj2 (Ka b)), Hi. simpl.
    destruct (pi_product a =? pi_product b) eqn:Eab; [|reflexivity].
    apply Nat.eqb_eq in Eab. simpl in Hpf.
    destruct (pi_product b =? p) eqn:Eb.
    - apply Nat.eqb_eq in Eb. rewrite (Hall a Ha ltac:(congruence)), (Hall b Hb Eb) in Hpf.
      discriminate.
    - rewrite Eab, Eb. simpl. exact Hpf. }
  unfold save. rewrite Hprim. unfold commit. fold p. rewrite Hd.
  unfold model_save. rewrite existsb_id_demote, Hfresh.
  rewrite (ok_snoc _ clash constraints_ok eq_refl (fun r t => eq_refl)), Hd. simpl.
  replace (forallb _ (demote_primaries p s)) with true; [reflexivity|].
  symmetry. apply forallb_forall. intros r Hr. apply negb_true_iff. unfold clash.
  destruct (demote_keys p s r Hr) as (r0 & Hr0 & Ei & Ep).
  rewrite Ei. replace (pi_id r0 =? pi_id img) with false.
  2:{ symmetry. destruct (pi_id r0 =? pi_id img) eqn:X; [|reflexivity].
      rewrite <- Hfresh. symmetry. apply existsb_exists. eauto. }
  simpl. destruct (pi_product r =? pi_product img) eqn:X; [|reflexivity].
  apply Nat.eqb_eq in X. rewrite (demote_no_primary p s r Hr X), Hprim. reflexivity.
Qed.

(** Saving an image never changes the images of another product, unless
    the save overwrites a row of that product (same primary key). *)
Theorem save_other_products_untouched img s q :
  q <> pi_product img ->
  (forall r, In r s -> pi_id r = pi_id img -> pi_product r <> q) ->
  images_of q (final (save img s)) = images_of q s.
Proof.
  intros Hq Hkeys.
  assert (Hdem : images_of q (demote_primaries (pi_product img) s) = images_of q s).
  { unfold images_of, demote_primaries. apply filter_map_fixed. intros r _.
    destruct ((pi_product r =? pi_product img) && pi_is_primary r) eqn:E; [|auto].
    simpl. split; [reflexivity|]. intros Hr. apply Nat.eqb_eq in Hr.
    apply andb_true_iff in E as [E _]. apply Nat.eqb_eq in E. congruence. }
  assert (Hms : forall s1, (forall r, In r s1 -> pi_id r = pi_id img -> pi_product r <> q) ->
                images_of q (model_save img s1) = images_of q s1).
  { intros s1 Hk. unfold model_save, images_of. destruct (existsb _ s1).
    - apply filter_map_fixed. intros r Hr.
      destruct (pi_id r =? pi_id img) eqn:E; [|auto].
      apply Nat.eqb_eq in E. specialize (Hk r Hr E).
      apply Nat.eqb_neq in Hk. apply Nat.eqb_neq in Hq. rewrite Nat.eqb_sym in Hq.
      rewrite Hk, Hq. split; [reflexivity|discriminate].
    - rewrite filter_app. simpl. apply Nat.eqb_neq in Hq. rewrite Nat.eqb_sym, Hq, app_nil_r.
      reflexivity. }
  assert (Hfin : forall s1, images_of q s1 = images_of q s ->
            (forall r, In r s1 -> pi_id r = pi_id img -> pi_product r <> q) ->
            images_of q (final (match commit (model_save img s1) with
                                | Some s2 => Returned s2 | None => Raised s1 end))
            = images_of q s).
  { intros s1 Hs1 Hk1. destruct (commit (model_save img s1)) as [s2|] eqn:E2; simpl; [|exact Hs1].
    unfold commit in E2. destruct (constraints_ok _); [|discriminate]. injection E2 as <-.
    rewrite Hms by exact Hk1. exact Hs1. }
  unfold save. destruct (pi_is_primary img).
  - destruct (commit (demote_primaries (pi_product img) s)) as [s1|] eqn:E1; [|reflexivity].
    unfold commit in E1. destruct (constraints_ok _); [|discriminate]. injection E1 as <-.
    apply Hfin; [exact Hdem|]. intros r Hr Hi. destruct (demote_keys _ _ _ Hr) as (r0 & H0 & Ei & Ep).
    rewrite Ep. apply Hkeys; congruence.
  - apply Hfin; [reflexivity|exact Hkeys].
Qed.

End ProductImageSaveFacts.

(* ------------------------------------------------------------------ *)
(** ** More on [discount_percentage] *)

Module PricingMoreFacts.
Import Decimal DecimalFacts Pricing PricingFacts.
Local Open Scope Z_scope.


(** With field values and an effective discount, [discount_percentage] is
    a [Decimal] with two places between [0.00] and [100.00]; it is
    [100.00] for a discount price of [0], and [0.00] (although
    [has_discount] holds) when the saving is below 0.005% of the price. *)
Theorem discount_percentage_range p dc :
  field_ok p -> field_ok dc -> dc < p ->
  match discount_percentage (product_of p (Some dc)) with
  | Ok (PyDecimal r) =>
      exp r = -2 /\ 0 <= coef r <= 10000 /\ (dc = 0 -> coef r = 10000) /\
      (20000 * (p - dc) < p -> has_discount (product_of p (Some dc)) = true /\ coef r = 0)
  | _ => False
  end.
Proof.
  unfold field_ok. intros Hp Hd Hlt. rewrite discount_chain by lia. cbv beta iota delta [coef exp].
  assert (Hp0 : 0 < p) by lia.
  pose proof (rhe_bounds (10000 * (p - dc)) p Hp0) as Hb.
  set (k := round_half_even (10000 * (p - dc)) p) in *.
  assert (Hk1 : 2 * k - 1 <= 20000).
  { apply (Z.mul_le_mono_pos_l _ _ p Hp0). nia. }
  assert (Hk0 : 0 <= 2 * k + 1).
  { apply (Z.mul_le_mono_pos_l _ _ p Hp0). nia. }
  split; [reflexivity|]. split; [lia|]. split.
  - intros ->. unfold k. rewrite Z.sub_0_r. apply rhe_exact, Hp0.
  - intros Hs. split; [rewrite has_discount_product_of; apply Z.ltb_lt, Hlt|].
    assert (2 * k - 1 < 1) by (apply (Z.mul_lt_mono_pos_l p); lia). lia.
Qed.


End PricingMoreFacts.

(* ------------------------------------------------------------------ *)
(** ** More on the account views *)

Module AccountsMoreFacts.
Import Accounts AccountsFacts TableFacts.

Lemma tokens_ok_cons t r : tokens_ok (t :: r) = negb (existsb (token_clash t) r) && tokens_ok r.
Proof. reflexivity. Qed.

Lemma get_or_create_ok u fresh ts ts' t :
  tokens_ok ts = true -> get_or_create_token u fresh ts = Some (ts', t) -> tokens_ok ts' = true.
Proof.
  intros Hok. unfold get_or_create_token. destruct (token_of u ts) as [t0|] eqn:E.
  - intros H. injection H as <- _. exact Hok.
  - destruct (existsb _ ts) eqn:Ek; [discriminate|]. intros H. injection H as <- _.
    rewrite (ok_snoc _ token_clash tokens_ok eq_refl tokens_ok_cons), Hok. simpl.
    apply forallb_forall. intros r Hr. apply negb_true_iff. unfold token_clash. simpl.
    apply orb_false_iff. split.
    + destruct (String.eqb (key r) fresh) eqn:X; [|reflexivity].
      rewrite <- Ek. symmetry. apply existsb_exists. eauto.
    + exact (find_none _ _ E r Hr).
Qed.

Lemma delete_token_ok t ts : tokens_ok ts = true -> tokens_ok (delete_token t ts) = true.
Proof. apply (ok_filter _ token_clash tokens_ok tokens_ok_cons). Qed.

Lemma change_password_tokens validate u o n salt st :
  tokens (snd (fst (change_password validate u o n salt st))) = tokens st.
Proof.
  unfold change_password.
  destruct (ChangePasswordSerializer validate u o n) as [[o' n']|]; [|reflexivity].
  destruct (check_password o' (password u)); reflexivity.
Qed.

Lemma account_step_ok validate st q :
  tokens_ok (tokens st) = true -> tokens_ok (tokens (account_step validate st q)) = true.
Proof.
  intros Hok. destruct q as [ser fresh|name pw fresh|c o n salt|c|c|c pk|c pk]; simpl.
  - unfold UserRegistration_create. destruct ser as [u|errs]; [|exact Hok].
    destruct (get_or_create_token _ _ _) as [[ts t]|] eqn:E; [|exact Hok].
    exact (get_or_create_ok _ _ _ _ _ Hok E).
  - unfold UserLogin_create. destruct (UserLoginSerializer _ _ _) as [u|errs]; [|exact Hok].
    destruct (get_or_create_token _ _ _) as [[ts t]|] eqn:E; [|exact Hok].
    exact (get_or_create_ok _ _ _ _ _ Hok E).
  - destruct c as [|u]; [exact Hok|]. unfold UserViewSet_change_password.
    pose proof (change_password_tokens validate u o n salt st) as H.
    destruct (change_password validate u o n salt st) as [[u' st'] r]. simpl in *. congruence.
  - unfold UserViewSet_logout, delete_auth_token.
    destruct (has_permission IsAuthenticated c); [|exact Hok].
    destruct c as [|u]; [exact Hok|]. destruct (token_of _ _); [|exact Hok].
    apply delete_token_ok, Hok.
  - unfold logout_view, delete_auth_token.
    destruct c as [|u]; [exact Hok|]. destruct (token_of _ _); [|exact Hok].
    apply delete_token_ok, Hok.
  - unfold UserViewSet_deactivate. destruct (has_permission _ c); [|exact Hok].
    destruct (UserViewSet_get_object c pk st); exact Hok.
  - unfold UserViewSet_activate. destruct (has_permission _ c); [|exact Hok].
    destruct (UserViewSet_get_object c pk st); exact Hok.
Qed.

Lemma tokens_ok_one_per_user ts u :
  tokens_ok ts = true -> length (filter (fun t => token_user t =? u) ts) <= 1.
Proof.
  induction ts as [|t r IH]; simpl; [lia|].
  intros H. apply andb_true_iff in H as [Hn Ht]. apply negb_true_iff in Hn.
  destruct (token_user t =? u) eqn:Et; [|apply IH, Ht].
  simpl. destruct (filter (fun t => token_user t =? u) r) as [|t' r'] eqn:Ef; [simpl; lia|].
  exfalso. assert (Hin : In t' (filter (fun t => token_user t =? u) r)) by (rewrite Ef; left; auto).
  apply filter_In in Hin as [Hin Ht'].
  assert (existsb (token_clash t) r = true) as X.
  { apply existsb_exists. exists t'. split; [exact Hin|]. unfold token_clash.
    apply Nat.eqb_eq in Et. apply Nat.eqb_eq in Ht'. rewrite Et, Ht', Nat.eqb_refl, orb_true_r.
    reflexivity. }
  congruence.
Qed.

(** Every sequence of calls to the account endpoints (registration,
    login, password change, both logouts, deactivation, activation) keeps
    the token table within its constraints, whatever the password
    validation is: keys are unique and no user ever holds two tokens. *)
Theorem token_table_invariant :
  (forall validate st qs, tokens_ok (tokens st) = true ->
     tokens_ok (tokens (account_run validate st qs)) = true) /\
  (forall validate st qs u, tokens_ok (tokens st) = true ->
     length (filter (fun t => token_user t =? u) (tokens (account_run validate st qs))) <= 1).
Proof.
  assert (Hrun : forall validate st qs, tokens_ok (tokens st) = true ->
                 tokens_ok (tokens (account_run validate st qs)) = true).
  { intros validate st qs. unfold account_run. revert st.
    induction qs as [|q qs IH]; intros st H; simpl; [exact H|]. apply IH, account_step_ok, H. }
  split; [exact Hrun|]. intros validate st qs u H. apply tokens_ok_one_per_user, Hrun, H.
Qed.

Lemma token_eq_dec (a b : Token) : {a = b} + {a <> b}.
Proof. decide equality; auto using Nat.eq_dec, string_dec. Defined.

Lemma token_owner_in t ts :
  tokens_ok ts = true -> In t ts -> token_owner (key t) ts = Some (token_user t).
Proof.
  intros Hok Hin. unfold token_owner.
  destruct (find (fun t' => String.eqb (key t') (key t)) ts) as [t'|] eqn:E.
  - apply find_some in E as [Hin' Hk]. apply String.eqb_eq in Hk. simpl.
    destruct (token_eq_dec t' t) as [->|Hne]; [reflexivity|exfalso].
    apply (ok_no_clash _ token_clash tokens_ok tokens_ok_cons ts t' t Hok Hin' Hin Hne);
      unfold token_clash; rewrite Hk, String.eqb_refl; reflexivity.
  - exfalso. pose proof (find_none _ _ E t Hin) as X. cbv beta in X. rewrite String.eqb_refl in X. discriminate.
Qed.

Lemma issued_token u fresh ts ts' t :
  tokens_ok ts = true -> get_or_create_token u fresh ts = Some (ts', t) ->
  tokens_ok ts' = true /\ token_of u ts' = Some t /\ token_user t = u /\ In t ts'.
Proof.
  intros Hok E. pose proof (get_or_create_token_found _ _ _ _ _ E) as Hf.
  pose proof (get_or_create_ok _ _ _ _ _ Hok E) as Hok'.
  unfold token_of in Hf. pose proof (find_some _ _ Hf) as [Hin Hu].
  apply Nat.eqb_eq in Hu. auto.
Qed.

(** The token returned by a successful registration ([UserRegistrationViewSet.create]
    and [register_view]) or login ([UserLoginViewSet.create] and
    [login_view]) is stored, is the user's only token, and authenticates
    as exactly that user. *)
Theorem issued_token_authenticates :
  (forall ser fresh st st' u k m,
     tokens_ok (tokens st) = true ->
     UserRegistration_create ser fresh st = Done st' (mkResponse 201 (BUserToken u k m)) ->
     token_owner k (tokens st') = Some (user_id u) /\
     token_of (user_id u) (tokens st') = Some (mkToken k (user_id u)) /\
     (forall t, In t (tokens st') -> token_user t = user_id u -> t = mkToken k (user_id u))) /\
  (forall name pw fresh st st' u k m,
     tokens_ok (tokens st) = true ->
     UserLogin_create name pw fresh st = Done st' (mkResponse 200 (BUserToken u k m)) ->
     token_owner k (tokens st') = Some (user_id u) /\
     token_of (user_id u) (tokens st') = Some (mkToken k (user_id u)) /\
     (forall t, In t (tokens st') -> token_user t = user_id u -> t = mkToken k (user_id u))).
Proof.
  assert (Hgen : forall u fresh ts ts' t, tokens_ok ts = true ->
            get_or_create_token (user_id u) fresh ts = Some (ts', t) ->
            token_owner (key t) ts' = Some (user_id u) /\
            token_of (user_id u) ts' = Some (mkToken (key t) (user_id u)) /\
            (forall t', In t' ts' -> token_user t' = user_id u ->
                        t' = mkToken (key t) (user_id u))).
  { intros u fresh ts ts' t Hok E. destruct (issued_token _ _ _ _ _ Hok E) as (Hok' & Hf & Hu & Hin).
    split; [rewrite <- Hu at 1; apply token_owner_in; assumption|].
    assert (Ht : t = mkToken (key t) (user_id u)) by (destruct t as [k0 u0]; simpl in Hu; subst; reflexivity).
    split; [rewrite Hf, <- Ht; reflexivity|].
    intros t' Hin' Hu'. rewrite <- Ht.
    destruct (token_eq_dec t' t) as [->|Hne]; [reflexivity|exfalso].
    apply (ok_no_clash _ token_clash tokens_ok tokens_ok_cons ts' t' t Hok' Hin' Hin Hne);
      unfold token_clash; rewrite Hu, Hu', Nat.eqb_refl, orb_true_r; reflexivity. }
  split.
  - intros ser fresh st st' u k m Hok H. unfold UserRegistration_create in H.
    destruct ser as [u0|errs]; [|discriminate].
    destruct (get_or_create_token _ _ _) as [[ts t]|] eqn:E; [|discriminate].
    injection H as <- <- <- _. exact (Hgen _ _ _ _ _ Hok E).
  - intros name pw fresh st st' u k m Hok H. unfold UserLogin_create in H.
    destruct (UserLoginSerializer _ _ _) as [u0|errs]; [|discriminate].
    destruct (get_or_create_token _ _ _) as [[ts t]|] eqn:E; [|discriminate].
    injection H as <- <- <- _. exact (Hgen _ _ _ _ _ Hok E).
Qed.

(** A successful logout on either endpoint deletes the caller's token and
    no other: the deleted key no longer authenticates ([TokenAuthentication]
    answers 401 [Invalid token.] before any view runs), and a repeated
    logout by the same user authenticated otherwise (a session) answers 400
    on either endpoint and changes nothing. *)
Theorem logout_twice_fails u st t :
  tokens_ok (tokens st) = true -> token_of (user_id u) (tokens st) = Some t ->
  let st' := mkState (users st) (delete_token t (tokens st)) (profiles st) in
  fst (UserViewSet_logout (AuthUser u) st) = st' /\ fst (logout_view (AuthUser u) st) = st' /\
  (forall t', In t' (tokens st') <-> In t' (tokens st) /\ t' <> t) /\
  TokenAuthentication_authenticate (key t) st' = AuthenticationFailed "Invalid token."%string /\
  UserViewSet_logout (AuthUser u) st' = (st', mkResponse 400 (BError "User has no auth_token."%string)) /\
  logout_view (AuthUser u) st' = (st', mkResponse 400 (BError "Logout failed"%string)).
Proof.
  intros Hok Ht st'.
  assert (Hint : In t (tokens st) /\ token_user t = user_id u).
  { unfold token_of in Ht. apply find_some in Ht as [Hin Hu]. apply Nat.eqb_eq in Hu. auto. }
  destruct Hint as [Hint Hu].
  assert (Hkeep : forall t', In t' (tokens st') <-> In t' (tokens st) /\ t' <> t).
  { intros t'. unfold st', delete_token. cbn [tokens]. rewrite filter_In. split.
    - intros [Hin Hk]. split; [exact Hin|]. intros ->. rewrite String.eqb_refl in Hk. discriminate.
    - intros [Hin Hne]. split; [exact Hin|]. apply negb_true_iff.
      destruct (String.eqb (key t') (key t)) eqn:Ek; [exfalso|reflexivity].
      apply (ok_no_clash _ token_clash tokens_ok tokens_ok_cons _ t' t Hok Hin Hint Hne);
        unfold token_clash; [rewrite Ek|rewrite String.eqb_sym, Ek]; reflexivity. }
  assert (Hnone : token_of (user_id u) (tokens st') = None).
  { unfold token_of. apply find_none_intro. intros t' Hin.
    apply Hkeep in Hin as [Hin Hne].
    destruct (token_user t' =? user_id u) eqn:E; [exfalso|reflexivity].
    apply (ok_no_clash _ token_clash tokens_ok tokens_ok_cons _ t' t Hok Hin Hint Hne);
      unfold token_clash; apply Nat.eqb_eq in E; rewrite E, Hu, Nat.eqb_refl, orb_true_r;
      reflexivity. }
  assert (Hauth : TokenAuthentication_authenticate (key t) st'
                  = AuthenticationFailed "Invalid token."%string).
  { unfold TokenAuthentication_authenticate.
    replace (find (fun t' => String.eqb (key t') (key t)) (tokens st')) with (@None Token);
      [reflexivity|].
    symmetry. apply find_none_intro. intros t' Hin. unfold st', delete_token in Hin.
    cbn [tokens] in Hin. apply filter_In in Hin as [_ Hk]. apply negb_true_iff, Hk. }
  split; [|split; [|split; [exact Hkeep|split; [exact Hauth|]]]].
  - unfold UserViewSet_logout, delete_auth_token. cbn [has_permission]. rewrite Ht. reflexivity.
  - unfold logout_view, delete_auth_token. rewrite Ht. reflexivity.
  - unfold UserViewSet_logout, logout_view, delete_auth_token. cbn [has_permission].
    rewrite Hnone. split; reflexivity.
Qed.

Lemma get_object_in c pk st v :
  UserViewSet_get_object c pk st = Some v -> In v (users st) /\ user_id v = pk.
Proof.
  unfold UserViewSet_get_object. intros H. apply find_some in H as [Hin Hid].
  apply Nat.eqb_eq in Hid. split; [|exact Hid].
  destruct c as [|u]; simpl in Hin; [apply filter_In in Hin; tauto|].
  destruct (is_staff u); [exact Hin|apply filter_In in Hin; tauto].
Qed.

Lemma nodup_id l v w :
  NoDup (map user_id l) -> In v l -> In w l -> user_id w = user_id v -> w = v.
Proof.
  induction l as [|x t IH]; [intros _ []|]. simpl. intros Hnd Hv Hw Heq.
  inversion Hnd as [|? ? Hx Hnd']; subst.
  destruct Hv as [<-|Hv]; destruct Hw as [<-|Hw]; auto.
  - exfalso. apply Hx. rewrite <- Heq. apply in_map, Hw.
  - exfalso. apply Hx. rewrite Heq. apply in_map, Hv.
Qed.

Lemma set_user_with_active l v b :
  NoDup (map user_id l) -> In v l ->
  set_user (mkUser (user_id v) (username v) (password v) b (is_staff v)) l
  = map (with_active b (user_id v)) l.
Proof.
  intros Hnd Hv. unfold set_user, with_active. apply map_ext_in. intros w Hw. simpl.
  destruct (user_id w =? user_id v) eqn:E; [|reflexivity].
  apply Nat.eqb_eq in E. rewrite (nodup_id l v w Hnd Hv Hw E). reflexivity.
Qed.

Lemma with_active_id b q w : user_id (with_active b q w) = user_id w.
Proof. unfold with_active. destruct (user_id w =? q); reflexivity. Qed.

Lemma get_object_map c pk us ts ps b q :
  UserViewSet_get_object c pk (mkState (map (with_active b q) us) ts ps)
  = option_map (with_active b q) (UserViewSet_get_object c pk (mkState us ts ps)).
Proof.
  assert (Hf : forall (f : User -> bool) l, (forall w, f (with_active b q w) = f w) ->
             filter f (map (with_active b q) l) = map (with_active b q) (filter f l)).
  { intros f l Hf. induction l as [|w t IH]; simpl; [reflexivity|].
    rewrite Hf. destruct (f w); simpl; rewrite IH; reflexivity. }
  assert (Hfind : forall (f : User -> bool) l, (forall w, f (with_active b q w) = f w) ->
             find f (map (with_active b q) l) = option_map (with_active b q) (find f l)).
  { intros f l Hf'. induction l as [|w t IH]; simpl; [reflexivity|].
    rewrite Hf'. destruct (f w); [reflexivity|exact IH]. }
  unfold UserViewSet_get_object, UserViewSet_queryset. cbn [users].
  destruct c as [|u].
  - rewrite Hf by reflexivity. apply Hfind. intros w. rewrite with_active_id. reflexivity.
  - destruct (is_staff u).
    + apply Hfind. intros w. rewrite with_active_id. reflexivity.
    + rewrite Hf by (intros w; rewrite with_active_id; reflexivity).
      apply Hfind. intros w. rewrite with_active_id. reflexivity.
Qed.

(** [deactivate] and [activate] are routed with [permission_classes=[IsAdminUser]],
    but the overridden [get_permissions] gives both actions [IsAuthenticated]:
    a non-administrator can deactivate or activate their own account (the
    only row their [get_queryset] shows) and gets 404, not 403, for anyone
    else's; an administrator can do it for every stored user; an
    anonymous caller gets 401. *)
Theorem deactivate_activate_permission :
  UserViewSet_permission "deactivate"%string = IsAuthenticated /\
  UserViewSet_permission "activate"%string = IsAuthenticated /\
  (forall u v st, is_staff u = false ->
     find (fun w => user_id w =? user_id u) (users st) = Some v ->
     status (snd (UserViewSet_deactivate (AuthUser u) (user_id u) st)) = 200 /\
     status (snd (UserViewSet_activate (AuthUser u) (user_id u) st)) = 200) /\
  (forall u pk st, is_staff u = false -> pk <> user_id u ->
     UserViewSet_deactivate (AuthUser u) pk st = (st, not_found) /\
     UserViewSet_activate (AuthUser u) pk st = (st, not_found)) /\
  (forall u pk v st, is_staff u = true -> find (fun w => user_id w =? pk) (users st) = Some v ->
     status (snd (UserViewSet_deactivate (AuthUser u) pk st)) = 200 /\
     status (snd (UserViewSet_activate (AuthUser u) pk st)) = 200) /\
  (forall pk st,
     UserViewSet_deactivate Anonymous pk st = (st, permission_denied Anonymous) /\
     UserViewSet_activate Anonymous pk st = (st, permission_denied Anonymous) /\
     status (permission_denied Anonymous) = 401).
Proof.
  assert (Hff : forall (f : User -> bool) l, find f (filter f l) = find f l).
  { intros f l. induction l as [|w t IH]; simpl; [reflexivity|].
    destruct (f w) eqn:E; simpl; [rewrite E; reflexivity|exact IH]. }
  split; [reflexivity|]. split; [reflexivity|]. split; [|split; [|split]].
  - intros u v st Hs Hv.
    unfold UserViewSet_deactivate, UserViewSet_activate, UserViewSet_get_object,
      UserViewSet_queryset. cbn [has_permission UserViewSet_permission]. simpl.
    rewrite Hs, Hff, Hv. split; reflexivity.
  - intros u pk st Hs Hpk.
    unfold UserViewSet_deactivate, UserViewSet_activate, UserViewSet_get_object,
      UserViewSet_queryset. simpl. rewrite Hs.
    replace (find _ (filter _ _)) with (@None User); [split; reflexivity|].
    symmetry. apply find_none_intro. intros w Hw. apply filter_In in Hw as [_ Hw].
    apply Nat.eqb_eq in Hw. apply Nat.eqb_neq. congruence.
  - intros u pk v st Hs Hv.
    unfold UserViewSet_deactivate, UserViewSet_activate, UserViewSet_get_object,
      UserViewSet_queryset. simpl. rewrite Hs, Hv. split; reflexivity.
  - intros pk st. repeat split.
Qed.

(** A successful [deactivate] (or [activate]) sets [is_active] of the
    addressed user only, and touches neither the token table nor the
    profiles: the deactivated user's token stays, but [TokenAuthentication]
    now refuses it with 401 [User inactive or deleted.].  A successful
    [activate] of a user after their deactivation (by a caller still able
    to authenticate, such as an administrator) restores the state. *)
Theorem deactivate_activate_effect :
  (forall c pk st st' r, NoDup (map user_id (users st)) ->
     UserViewSet_deactivate c pk st = (st', r) -> status r = 200 ->
     st' = mkState (map (with_active false pk) (users st)) (tokens st) (profiles st)) /\
  (forall c pk st st' r, NoDup (map user_id (users st)) ->
     UserViewSet_activate c pk st = (st', r) -> status r = 200 ->
     st' = mkState (map (with_active true pk) (users st)) (tokens st) (profiles st)) /\
  (forall c pk st st' r k, NoDup (map user_id (users st)) ->
     UserViewSet_deactivate c pk st = (st', r) -> status r = 200 ->
     token_owner k (tokens st) = Some pk ->
     TokenAuthentication_authenticate k st' = AuthenticationFailed "User inactive or deleted."%string) /\
  (forall c c' pk st st' r st'' r' v, NoDup (map user_id (users st)) ->
     In v (users st) -> user_id v = pk -> is_active v = true ->
     UserViewSet_deactivate c pk st = (st', r) -> status r = 200 ->
     UserViewSet_activate c' pk st' = (st'', r') -> status r' = 200 ->
     st'' = st).
Proof.
  assert (Hd : forall c pk st st' r, NoDup (map user_id (users st)) ->
     UserViewSet_deactivate c pk st = (st', r) -> status r = 200 ->
     has_permission IsAuthenticated c = true /\
     (exists v, UserViewSet_get_object c pk st = Some v) /\
     st' = mkState (map (with_active false pk) (users st)) (tokens st) (profiles st)).
  { intros c pk st st' r Hnd H Hr. unfold UserViewSet_deactivate in H.
    change (UserViewSet_permission "deactivate"%string) with IsAuthenticated in H.
    destruct (has_permission IsAuthenticated c) eqn:Hp;
      [|injection H as _ <-; destruct c; discriminate Hr].
    destruct (UserViewSet_get_object c pk st) as [v|] eqn:Eg; [|injection H as _ <-; discriminate Hr].
    injection H as <- _. split; [reflexivity|]. split; [eauto|].
    destruct (get_object_in _ _ _ _ Eg) as [Hin Hid].
    rewrite set_user_with_active by assumption. rewrite Hid. reflexivity. }
  assert (Ha : forall c pk st st' r, NoDup (map user_id (users st)) ->
     UserViewSet_activate c pk st = (st', r) -> status r = 200 ->
     st' = mkState (map (with_active true pk) (users st)) (tokens st) (profiles st)).
  { intros c pk st st' r Hnd H Hr. unfold UserViewSet_activate in H.
    destruct (has_permission _ c) eqn:Hp; [|injection H as _ <-; destruct c; discriminate Hr].
    destruct (UserViewSet_get_object c pk st) as [v|] eqn:Eg; [|injection H as _ <-; discriminate Hr].
    injection H as <- _. destruct (get_object_in _ _ _ _ Eg) as [Hin Hid].
    rewrite set_user_with_active by assumption. rewrite Hid. reflexivity. }
  split; [intros; eapply Hd; eauto|]. split; [exact Ha|]. split.
  - intros c pk st st' r k Hnd H Hr Hk.
    destruct (Hd c pk st st' r Hnd H Hr) as (_ & [v0 Hg] & ->).
    destruct (get_object_in _ _ _ _ Hg) as [Hin0 Hid0].
    unfold token_owner in Hk. unfold TokenAuthentication_authenticate. cbn [tokens users].
    destruct (find (fun t => String.eqb (key t) k) (tokens st)) as [t|]; [|discriminate].
    injection Hk as Hk. rewrite Hk.
    assert (Hfind : forall (f : User -> bool) l, (forall w, f (with_active false pk w) = f w) ->
               find f (map (with_active false pk) l) = option_map (with_active false pk) (find f l)).
    { intros f l Hf'. induction l as [|w l IH]; simpl; [reflexivity|].
      rewrite Hf'. destruct (f w); [reflexivity|exact IH]. }
    rewrite Hfind by (intros w; rewrite with_active_id; reflexivity).
    destruct (find (fun u => user_id u =? pk) (users st)) as [w|] eqn:Ew.
    + apply find_some in Ew as [_ Ew]. cbn [option_map]. unfold with_active.
      rewrite Ew. reflexivity.
    + exfalso. pose proof (find_none _ _ Ew v0 Hin0) as X. cbv beta in X.
      rewrite Hid0, Nat.eqb_refl in X. discriminate.
  - intros c c' pk st st' r st'' r' v Hnd Hv Hid Hact H Hr H' Hr'.
    destruct (Hd c pk st st' r Hnd H Hr) as (_ & _ & ->).
    assert (Hnd' : NoDup (map user_id (map (with_active false pk) (users st)))).
    { rewrite map_map. erewrite map_ext; [exact Hnd|]. intros w. apply with_active_id. }
    rewrite (Ha c' pk (mkState (map (with_active false pk) (users st)) (tokens st) (profiles st))
               st'' r' Hnd' H' Hr'). cbn [users tokens profiles].
    destruct st as [us ts ps]. cbn [users] in *. f_equal.
    rewrite map_map. rewrite <- (map_id us) at 2. apply map_ext_in. intros w Hw.
    unfold with_active. destruct (user_id w =? pk) eqn:E; simpl; [|rewrite E; reflexivity].
    rewrite E. apply Nat.eqb_eq in E. rewrite <- Hid in E.
    rewrite (nodup_id us v w Hnd Hv Hw E).
    destruct v; cbn in Hact |- *; subst; reflexivity.
Qed.

(** [my_profile] looks the caller's profile up with [get(user=request.user)]:
    a 200 answer carries the one stored profile of the caller (for an
    administrator too, never another user's), the 404 answer comes exactly
    when the caller has no profile, and an anonymous caller gets 401. *)
Theorem my_profile_result :
  (forall u st p, UserProfileViewSet_my_profile (AuthUser u) st = ProfileOk p ->
     In p (profiles st) /\ profile_user p = user_id u /\
     (forall q, In q (profiles st) -> profile_user q = user_id u -> q = p)) /\
  (forall u st,
     UserProfileViewSet_my_profile (AuthUser u) st =
       ProfileResp (mkResponse 404 (BError "Profile not found"%string)) <->
     (forall q, In q (profiles st) -> profile_user q <> user_id u)) /\
  (forall st, UserProfileViewSet_my_profile Anonymous st = ProfileResp (permission_denied Anonymous)).
Proof.
  split; [|split].
  - intros u st p. unfold UserProfileViewSet_my_profile. simpl.
    destruct (filter (fun q => profile_user q =? user_id u) (profiles st)) as [|p0 [|p1 t]] eqn:Ef;
      try discriminate.
    intros H. injection H as <-.
    assert (Hp : In p0 (filter (fun q => profile_user q =? user_id u) (profiles st)))
      by (rewrite Ef; left; reflexivity).
    apply filter_In in Hp as [Hin Hid]. apply Nat.eqb_eq in Hid.
    split; [exact Hin|]. split; [exact Hid|].
    intros q Hq Hqid.
    assert (Hq' : In q (filter (fun q => profile_user q =? user_id u) (profiles st)))
      by (apply filter_In; split; [exact Hq|apply Nat.eqb_eq, Hqid]).
    rewrite Ef in Hq'. destruct Hq' as [<-|[]]. reflexivity.
  - intros u st. unfold UserProfileViewSet_my_profile. simpl. split.
    + destruct (filter (fun q => profile_user q =? user_id u) (profiles st)) as [|p0 [|p1 t]] eqn:Ef;
        try discriminate.
      intros _ q Hq Hqid.
      assert (Hq' : In q (filter (fun q => profile_user q =? user_id u) (profiles st)))
        by (apply filter_In; split; [exact Hq|apply Nat.eqb_eq, Hqid]).
      rewrite Ef in Hq'. destruct Hq'.
    + intros Hno.
      replace (filter (fun q => profile_user q =? user_id u) (profiles st)) with (@nil Profile);
        [reflexivity|].
      symmetry. induction (profiles st) as [|q t IH]; [reflexivity|]. simpl.
      replace (profile_user q =? user_id u) with false
        by (symmetry; apply Nat.eqb_neq, Hno; left; reflexivity).
      apply IH. intros q' Hq'. apply Hno. right. exact Hq'.
  - intros st. reflexivity.
Qed.

Lemma pages_concat {A} (qs : list A) j m :
  length qs <= (j + m) * PAGE_SIZE ->
  concat (map (fun k => firstn PAGE_SIZE (skipn (k * PAGE_SIZE) qs)) (seq j m))
  = skipn (j * PAGE_SIZE) qs.
Proof.
  revert j. induction m as [|m IH]; intros j Hl; cbn [seq map concat].
  - symmetry. apply skipn_all2. rewrite Nat.add_0_r in Hl. exact Hl.
  - rewrite IH by (rewrite Nat.add_succ_r in Hl; exact Hl).
    replace (S j * PAGE_SIZE) with (PAGE_SIZE + j * PAGE_SIZE) by reflexivity.
    rewrite <- skipn_skipn. apply firstn_skipn.
Qed.

(** [PageNumberPagination] with [PAGE_SIZE = 20] splits a result into
    [max 1 (ceil (count / 20))] pages: exactly the page numbers 1 to that
    number are served (page 0 and every later page are 404), every page
    reports the full [count] and holds at most 20 rows, and when every page
    is cut from the same sequence of rows (each page request runs its own
    query, so this needs a queryset whose order is fixed) the pages read in
    order give back the whole result, each row once. *)
Theorem paginate_partition {A} (qs : list A) :
  let n := Nat.max 1 ((length qs + PAGE_SIZE - 1) / PAGE_SIZE) in
  (forall k, paginate k qs <> None <-> 1 <= k <= n) /\
  (forall k c l, paginate k qs = Some (c, l) -> c = length qs /\ length l <= PAGE_SIZE) /\
  concat (map (fun k => match paginate k qs with Some (_, l) => l | None => [] end) (seq 1 n)) = qs.
Proof.
  intros n. split; [|split].
  - intros k. unfold paginate. fold n.
    destruct ((1 <=? k) && (k <=? n)) eqn:E.
    + apply andb_true_iff in E as [E1 E2]. apply Nat.leb_le in E1, E2.
      split; [intros _; lia|discriminate].
    + split; [intros H; exfalso; apply H; reflexivity|].
      intros [H1 H2]. apply Nat.leb_le in H1, H2. rewrite H1, H2 in E. discriminate.
  - intros k c l. unfold paginate. destruct (_ && _); [|discriminate].
    set (pg := firstn PAGE_SIZE _). intros H. injection H as <- <-.
    split; [reflexivity|apply firstn_le_length].
  - assert (Hn : length qs <= n * PAGE_SIZE).
    { unfold n, PAGE_SIZE.
      pose proof (Nat.div_mod_eq (length qs + 20 - 1) 20) as Hd.
      pose proof (Nat.mod_upper_bound (length qs + 20 - 1) 20) as Hm.
      lia. }
    transitivity (concat (map (fun k => firstn PAGE_SIZE (skipn (k * PAGE_SIZE) qs)) (seq 0 n))).
    + f_equal. rewrite <- seq_shift, map_map. apply map_ext_in. intros k Hk.
      apply in_seq in Hk. unfold paginate. fold n.
      replace ((1 <=? S k) && (S k <=? n)) with true
        by (symmetry; apply andb_true_iff; split; apply Nat.leb_le; lia).
      rewrite Nat.sub_1_r. reflexivity.
    + rewrite pages_concat by exact Hn. reflexivity.
Qed.

End AccountsMoreFacts.

(* ------------------------------------------------------------------ *)
(** ** The theorems at concrete inputs *)

Module Witnesses.

Module PI := ProductImages.
Module PIF := ProductImagesFacts.

Lemma primary_image_exclusive_witness :
  PI.pi_is_primary (PI.mkImage 2 1 true) = true /\
  PI.save (PI.mkImage 2 1 true) [PI.mkImage 1 1 true] =
    PI.Returned [PI.mkImage 1 1 false; PI.mkImage 2 1 true] /\
  (forall r, In r [PI.mkImage 1 1 false; PI.mkImage 2 1 true] ->
     PI.pi_product r = 1 -> PI.pi_is_primary r = true -> r = PI.mkImage 2 1 true).
Proof.
  split; [reflexivity|]. split; [reflexivity|].
  exact (proj2 PIF.primary_image_exclusive (PI.mkImage 2 1 true) [PI.mkImage 1 1 true]
           _ eq_refl eq_refl).
Defined.

Lemma unique_together_two_images_witness :
  PI.constraints_ok [PI.mkImage 1 1 false] = true /\
  PI.save (PI.mkImage 2 1 false) [PI.mkImage 1 1 false] = PI.Raised [PI.mkImage 1 1 false].
Proof.
  split; [reflexivity|].
  apply (proj2 (proj2 PIF.unique_together_two_images) _ _ (PI.mkImage 1 1 false));
    try reflexivity.
  - left. reflexivity.
  - discriminate.
Defined.

Import Decimal Pricing PricingFacts.
Local Open Scope Z_scope.

Lemma discount_percentage_correct_witness :
  field_ok 10000 /\ field_ok 7500 /\
  discount_percentage (product_of 10000 (Some 7500)) = Ok (PyDecimal (mkDec 2500 (-2))).
Proof.
  assert (Hp : field_ok 10000) by (unfold field_ok; lia).
  assert (Hd : forall dc, Some 7500%Z = Some dc -> field_ok dc)
    by (intros dc E; injection E as <-; unfold field_ok; lia).
  split; [exact Hp|]. split; [exact (Hd 7500%Z eq_refl)|].
  destruct (discount_percentage_correct 10000 (Some 7500%Z) Hp Hd) as [_ H].
  rewrite H. reflexivity.
Defined.

Lemma zero_price_guarded_by_has_discount_witness :
  field_ok 500 /\
  has_discount (product_of 0 (Some 500)) = false /\
  discount_percentage (product_of 0 (Some 500)) = Ok (PyInt 0) /\
  discount_percentage (product_of 0 (Some (-1))) = Exc DivisionByZero.
Proof.
  assert (Hd : field_ok 500) by (unfold field_ok; lia).
  split; [exact Hd|].
  destruct (proj1 zero_price_guarded_by_has_discount 500%Z Hd) as [H1 H2].
  split; [exact H1|]. split; [exact H2|].
  exact (proj2 (proj2 zero_price_guarded_by_has_discount (-1)%Z ltac:(lia))).
Defined.

Import Accounts AccountsFacts.
Local Open Scope nat_scope.
Local Open Scope string_scope.

Definition alice : User := mkUser 1 "alice" (make_password 7 "Str0ngPass!") true false.
Definition admin : User := mkUser 2 "admin" (make_password 8 "Adm1nPass!!") true true.
Definition st0 : State :=
  mkState [alice; admin] [mkToken "k-alice" 1] [mkProfile 1 1; mkProfile 2 2].

Lemma list_admin_only_queryset_narrows_witness :
  is_staff alice = false /\ 2 <> user_id alice /\
  UserViewSet_retrieve (AuthUser alice) 2 st0 = not_found /\
  is_staff admin = true /\
  UserViewSet_list (AuthUser admin) 1 st0 = mkResponse 200 (BUsers 2 [alice; admin]).
Proof.
  split; [reflexivity|]. split; [discriminate|]. split.
  - exact (proj2 (proj2 list_admin_only_queryset_narrows) alice 2 st0 eq_refl
             ltac:(discriminate)).
  - split; [reflexivity|].
    exact (proj1 (proj1 (proj2 list_admin_only_queryset_narrows) admin 1 st0 eq_refl)).
Defined.

Lemma token_issuance_idempotent_witness :
  UserLogin_create "alice" "Str0ngPass!" "k-new" st0 =
    Done st0 (mkResponse 200 (BUserToken alice "k-alice" "Login successful")) /\
  UserLogin_create "alice" "Str0ngPass!" "k-other" st0 =
    Done st0 (mkResponse 200 (BUserToken alice "k-alice" "Login successful")).
Proof.
  split; [reflexivity|].
  exact (proj1 (proj2 token_issuance_idempotent) "alice" "Str0ngPass!" "k-new" "k-other"
           st0 st0 _ eq_refl).
Defined.

Lemma change_password_success_witness :
  let '(u', st', r) := change_password example_validate alice "Str0ngPass!" "N3wPassw0rd" 9 st0 in
  status r = 200 /\
  check_password "N3wPassw0rd" (password u') = true /\
  check_password "Str0ngPass!" (password u') = false.
Proof.
  destruct (change_password example_validate alice "Str0ngPass!" "N3wPassw0rd" 9 st0)
    as [[u' st'] r] eqn:E.
  pose proof (change_password_success _ _ _ _ _ _ _ _ _ E) as H.
  assert (Hr : status r = 200) by (vm_compute in E; injection E as _ _ <-; reflexivity).
  destruct (H Hr) as (H1 & H2 & _). rewrite H1, H2. split; [exact Hr|]. split; reflexivity.
Defined.

Lemma change_password_mismatch_witness :
  check_password "wrong-pass" (password alice) = false /\
  change_password example_validate alice "wrong-pass" "N3wPassw0rd" 9 st0 =
    (alice, st0, mkResponse 400 (BFieldErrors [("old_password", ["Wrong password."])])) /\
  change_password example_validate alice "wrong-pass" "1234" 9 st0 =
    (alice, st0, mkResponse 400 (BFieldErrors [("new_password",
       ["This password is too short. It must contain at least 8 characters.";
        "This password is too common."; "This password is entirely numeric."])])).
Proof.
  split; [reflexivity|]. split.
  - rewrite (change_password_mismatch example_validate alice "wrong-pass" "N3wPassw0rd" 9 st0
               eq_refl). reflexivity.
  - rewrite (change_password_mismatch example_validate alice "wrong-pass" "1234" 9 st0
               eq_refl). reflexivity.
Defined.

Lemma logout_deletes_or_signals_witness :
  token_of 1 (tokens st0) = Some (mkToken "k-alice" 1) /\
  logout_view (AuthUser alice) st0 =
    (mkState (users st0) [] (profiles st0), mkResponse 200 (BMessage "Logged out successfully")) /\
  400 <= status (snd (UserViewSet_logout (AuthUser admin) st0)).
Proof.
  split; [reflexivity|]. split.
  - exact (proj1 (proj2 (proj1 logout_deletes_or_signals alice st0 _ eq_refl))).
  - exact (proj1 (proj2 (proj2 logout_deletes_or_signals (AuthUser admin) st0 eq_refl))).
Defined.

Import Categories CategoriesFacts.

Lemma save_has_no_cycle_check_witness :
  let s := [mkCategory 1 "Shoes" "shoes" None; mkCategory 2 "Boots" "boots" (Some 1)] in
  constraints_ok s = true /\
  save (mkCategory 1 "Shoes" "shoes" (Some 2)) s =
    Returned [mkCategory 1 "Shoes" "shoes" (Some 2); mkCategory 2 "Boots" "boots" (Some 1)].
Proof.
  intros s. split; [reflexivity|].
  apply (save_has_no_cycle_check s (mkCategory 1 "Shoes" "shoes" (Some 2))).
  - reflexivity.
  - intros r Hr Hne. destruct Hr as [<-|[<-|[]]]; simpl in *; [lia|].
    split; discriminate.
  - reflexivity.
Defined.

End Witnesses.

(* ------------------------------------------------------------------ *)
(** ** The further theorems at concrete inputs *)

Module MoreWitnesses.

Import TableFacts SlugSaveFacts.

(** ["Men's Shoes"] and ["Mens Shoes"] both slugify to ["mens-shoes"]. *)
Definition mens_shoes : Categories.Category :=
  Categories.mkCategory 1 "Men's Shoes"%string "mens-shoes"%string None.

Lemma category_blank_slug_collision_witness :
  Categories.slugify "Mens Shoes"%string = "mens-shoes"%string /\
  Categories.save (Categories.mkCategory 2 "Mens Shoes"%string EmptyString None) [mens_shoes]
    = Categories.Raised [mens_shoes].
Proof.
  split; [reflexivity|].
  apply (category_blank_slug_collision [mens_shoes] mens_shoes); [left; reflexivity|..];
    [discriminate|reflexivity|reflexivity].
Defined.

Lemma brand_blank_slug_collision_witness :
  Brands.save (Brands.mkBrand 2 "ACME Inc"%string EmptyString)
    [Brands.mkBrand 1 "Acme, Inc."%string "acme-inc"%string]
  = Brands.Raised [Brands.mkBrand 1 "Acme, Inc."%string "acme-inc"%string].
Proof.
  apply (brand_blank_slug_collision _ (Brands.mkBrand 1 "Acme, Inc."%string "acme-inc"%string));
    [left; reflexivity|discriminate|reflexivity|reflexivity].
Defined.

Lemma product_same_name_blank_slug_witness :
  Products.save (Products.mkProduct 1 "Blue Shirt"%string EmptyString) []
    = Products.Returned [Products.mkProduct 1 "Blue Shirt"%string "blue-shirt"%string] /\
  Products.save (Products.mkProduct 2 "Blue Shirt"%string EmptyString)
    [Products.mkProduct 1 "Blue Shirt"%string "blue-shirt"%string]
  = Products.Raised [Products.mkProduct 1 "Blue Shirt"%string "blue-shirt"%string].
Proof.
  split; [reflexivity|].
  apply (product_same_name_blank_slug [] _ (Products.mkProduct 1 "Blue Shirt"%string EmptyString));
    [reflexivity|reflexivity|reflexivity|reflexivity|discriminate].
Defined.

Import ProductImages ProductImageSaveFacts.

Lemma primary_save_blocked_witness :
  constraints_ok [mkImage 1 5 true; mkImage 2 5 false] = true /\
  save (mkImage 3 5 true) [mkImage 1 5 true; mkImage 2 5 false]
    = Raised [mkImage 1 5 true; mkImage 2 5 false].
Proof.
  split; [reflexivity|].
  apply (primary_save_blocked _ _ (mkImage 1 5 true) (mkImage 2 5 false));
    try reflexivity; simpl; auto.
Defined.

Lemma primary_replace_witness :
  save (mkImage 3 5 true) [mkImage 1 5 true; mkImage 2 6 false]
  = Returned [mkImage 1 5 false; mkImage 2 6 false; mkImage 3 5 true].
Proof.
  exact (primary_replace [mkImage 1 5 true; mkImage 2 6 false] (mkImage 3 5 true)
           eq_refl eq_refl eq_refl eq_refl).
Defined.

Lemma save_other_products_untouched_witness :
  images_of 6 (final (save (mkImage 3 5 true) [mkImage 1 5 true; mkImage 2 6 false]))
  = [mkImage 2 6 false].
Proof.
  rewrite (save_other_products_untouched (mkImage 3 5 true) _ 6).
  - reflexivity.
  - discriminate.
  - intros r [<-|[<-|[]]]; discriminate.
Defined.

Import Decimal Pricing PricingMoreFacts.
Local Open Scope Z_scope.

(** A discount of 99999 cents on a price of 100000 cents: [has_discount]
    holds and [discount_percentage] is [0.00]. *)
Lemma discount_percentage_range_witness :
  field_ok 100000 /\ field_ok 99999 /\ 99999 < 100000 /\
  discount_percentage (product_of 100000 (Some 99999)) = Ok (PyDecimal (mkDec 0 (-2))) /\
  has_discount (product_of 100000 (Some 99999)) = true.
Proof.
  assert (Hp : field_ok 100000) by (unfold field_ok; lia).
  assert (Hd : field_ok 99999) by (unfold field_ok; lia).
  assert (Hlt : 99999 < 100000) by lia.
  pose proof (discount_percentage_range 100000 99999 Hp Hd Hlt) as H.
  split; [exact Hp|]. split; [exact Hd|]. split; [exact Hlt|].
  destruct (discount_percentage (product_of 100000 (Some 99999))) as [[|r]|] eqn:E;
    try contradiction.
  destruct H as (He & _ & _ & H). destruct (H ltac:(lia)) as [Hh Hc].
  split; [|exact Hh]. destruct r as [c e]. cbn in He, Hc. subst. reflexivity.
Defined.


Local Close Scope Z_scope.
Import Accounts AccountsMoreFacts.

Definition alice := Witnesses.alice.
Definition admin := Witnesses.admin.
Definition st0 := Witnesses.st0.

Lemma issued_token_authenticates_witness :
  tokens_ok (tokens st0) = true /\
  UserLogin_create "alice"%string "Str0ngPass!"%string "k-new"%string st0 =
    Done st0 (mkResponse 200 (BUserToken alice "k-alice"%string "Login successful"%string)) /\
  token_owner "k-alice"%string (tokens st0) = Some (user_id alice).
Proof.
  split; [reflexivity|]. split; [reflexivity|].
  exact (proj1 (proj2 issued_token_authenticates "alice"%string "Str0ngPass!"%string "k-new"%string st0 st0 alice "k-alice"%string
                  "Login successful"%string eq_refl eq_refl)).
Defined.

Lemma logout_twice_fails_witness :
  tokens_ok (tokens st0) = true /\
  token_of (user_id alice) (tokens st0) = Some (mkToken "k-alice"%string 1) /\
  TokenAuthentication_authenticate "k-alice"%string st0 = Authenticated alice (mkToken "k-alice"%string 1) /\
  fst (logout_view (AuthUser alice) st0) = mkState (users st0) [] (profiles st0) /\
  TokenAuthentication_authenticate "k-alice"%string (mkState (users st0) [] (profiles st0))
    = AuthenticationFailed "Invalid token."%string /\
  UserViewSet_logout (AuthUser alice) (mkState (users st0) [] (profiles st0))
    = (mkState (users st0) [] (profiles st0),
       mkResponse 400 (BError "User has no auth_token."%string)).
Proof.
  destruct (logout_twice_fails alice st0 (mkToken "k-alice"%string 1) eq_refl eq_refl)
    as (_ & H2 & _ & H4 & H5 & _).
  split; [reflexivity|]. split; [reflexivity|]. split; [reflexivity|].
  split; [exact H2|]. split; [exact H4|]. exact H5.
Defined.

Lemma deactivate_activate_permission_witness :
  is_staff alice = false /\
  status (snd (UserViewSet_deactivate (AuthUser alice) 1 st0)) = 200 /\
  UserViewSet_activate (AuthUser alice) 2 st0 = (st0, not_found) /\
  is_staff admin = true /\
  status (snd (UserViewSet_deactivate (AuthUser admin) 1 st0)) = 200.
Proof.
  destruct deactivate_activate_permission as (_ & _ & Hself & Hother & Hadmin & _).
  split; [reflexivity|]. split; [exact (proj1 (Hself alice alice st0 eq_refl eq_refl))|].
  split; [exact (proj2 (Hother alice 2 st0 eq_refl ltac:(discriminate)))|].
  split; [reflexivity|]. exact (proj1 (Hadmin admin 1 alice st0 eq_refl eq_refl)).
Defined.

Lemma deactivate_activate_effect_witness :
  NoDup (map user_id (users st0)) /\
  UserViewSet_deactivate (AuthUser admin) 1 st0 =
    (mkState [mkUser 1 "alice"%string (password alice) false false; admin]
             (tokens st0) (profiles st0),
     mkResponse 200 (BMessage "User alice has been deactivated"%string)) /\
  TokenAuthentication_authenticate "k-alice"%string
    (fst (UserViewSet_deactivate (AuthUser admin) 1 st0))
    = AuthenticationFailed "User inactive or deleted."%string /\
  fst (UserViewSet_activate (AuthUser admin) 1
         (fst (UserViewSet_deactivate (AuthUser admin) 1 st0))) = st0.
Proof.
  assert (Hnd : NoDup (map user_id (users st0))).
  { constructor; [simpl; intros [H|[]]; discriminate|].
    constructor; [intros []|constructor]. }
  destruct deactivate_activate_effect as (_ & _ & Hauth & Hround).
  split; [exact Hnd|]. split; [reflexivity|]. split.
  - exact (Hauth (AuthUser admin) 1 st0 _ _ "k-alice"%string Hnd (surjective_pairing _)
             eq_refl eq_refl).
  - exact (Hround (AuthUser admin) (AuthUser admin) 1 st0 _ _ _ _ alice Hnd
             (or_introl eq_refl) eq_refl eq_refl (surjective_pairing _) eq_refl
             (surjective_pairing _) eq_refl).
Defined.

Lemma my_profile_result_witness :
  UserProfileViewSet_my_profile (AuthUser admin) st0 = ProfileOk (mkProfile 2 2) /\
  profile_user (mkProfile 2 2) = user_id admin /\
  UserProfileViewSet_my_profile (AuthUser (mkUser 3 "carol"%string (password alice) true false)) st0
    = ProfileResp (mkResponse 404 (BError "Profile not found"%string)).
Proof.
  split; [reflexivity|]. split.
  - exact (proj1 (proj2 (proj1 my_profile_result admin st0 (mkProfile 2 2) eq_refl))).
  - apply (proj1 (proj2 my_profile_result) _ st0).
    intros q [<-|[<-|[]]]; discriminate.
Defined.

End MoreWitnesses.
